(** * libant/db/redis/redis_client.cpp : a synchronous Redis client

    A shallow embedding of [ant::RedisClient] and of the properties its
    design document states about it.  The client is a thin layer over
    hiredis: every public method formats one command, hands it to the
    transport, and turns the [redisReply] it gets back into a [bool] plus
    reference / pointer results and a last-error message.

    The transport (hiredis) is outside the repository; it is kept abstract
    here as a type class over an arbitrary world state [Net], so that every
    theorem holds for every behaviour of the network.  Each call into it is
    recorded in a ghost [trace], which is what lets us talk about "no
    transport call was made" or "the next call reconnects first". *)

From Stdlib Require Import ZArith List String Ascii Bool Lia.
Import ListNotations.
Local Open Scope string_scope.
Local Open Scope list_scope.
Local Open Scope Z_scope.

Set Implicit Arguments.

(* ================================================================== *)
(** ** hiredis data, as the client sees it *)

(** The [REDIS_REPLY_*] tags of hiredis/read.h. *)
Definition REDIS_REPLY_STRING  : Z := 1.
Definition REDIS_REPLY_ARRAY   : Z := 2.
Definition REDIS_REPLY_INTEGER : Z := 3.
Definition REDIS_REPLY_NIL     : Z := 4.
Definition REDIS_REPLY_STATUS  : Z := 5.
Definition REDIS_REPLY_ERROR   : Z := 6.

(** [struct redisReply].  [str] is a pointer: [None] is the null pointer
    (hiredis leaves it null in integer, nil and array replies), [Some b]
    points at a buffer holding the payload [b], which hiredis terminates
    with a NUL byte.  The C fields [len] and [elements] always equal the
    payload length and the number of children, so they are derived. *)
#[warnings="-register-all"] Inductive redisReply : Type :=
  mkReply { type : Z;
            integer : Z;
            str : option string;
            element : list redisReply }.

Definition len (r : redisReply) : nat :=
  match str r with Some b => String.length b | None => 0%nat end.

Definition elements (r : redisReply) : nat := List.length (element r).

(** [struct redisContext], the two fields the client reads. *)
Record redisContext : Type :=
  mkContext { err : Z; errstr : string }.

(** What a [char*] denotes when it is read as a C string: the bytes of the
    buffer before the first NUL. *)
Fixpoint c_string (buf : string) : string :=
  match buf with
  | EmptyString => EmptyString
  | String c rest =>
      if Ascii.eqb c Ascii.zero then EmptyString else String c (c_string rest)
  end.

(** [std::string(p, n)] and [s.assign(p, n)]: exactly [n] bytes from [p].
    A null [p] only ever comes with [n = 0]. *)
Definition string_of_buf (p : option string) (n : nat) : string :=
  match p with
  | Some b => substring 0 n b
  | None => EmptyString
  end.

(** [s = p] for a [char* p]: the C string at [p].  hiredis never hands out
    a string reply with a null [str]; the empty string stands for that
    case, which the client cannot meet. *)
Definition string_of_cstr (p : option string) : string :=
  match p with
  | Some b => c_string b
  | None => EmptyString
  end.

(** Arguments of a printf-style command: [%b] takes a buffer with its
    length (always a whole [std::string] in this client), [%d], [%u] and
    [%lld] take a number. *)
Inductive fmtarg : Type :=
| ArgBytes (b : string)
| ArgNum (z : Z).

(** A command as it is handed to hiredis: a format with its arguments
    ([redisvCommand]) or an argument vector ([redisCommandArgv]). *)
Inductive command : Type :=
| Formatted (fmt : string) (args : list fmtarg)
| Argv (argv : list string).

(** The transport.  [Net] is the state of everything outside the client
    (sockets, the server, the clock).  A command may update the context it
    runs on (hiredis sets [err] and [errstr] there when it fails). *)
Class Hiredis (Net : Type) : Type := {
  redisConnectWithTimeout :
    string -> Z -> Z -> Net -> option redisContext * Net;
  redisCommand :
    redisContext -> command -> Net -> option redisReply * redisContext * Net;
  redisFree : redisContext -> Net -> Net
}.

(** Modelled from the spec: [RedisClient::ExpirationTime] is declared in
    redis_client.h, which is not part of the sources.  The design document
    says it is "a value type representing an absolute or relative expiry"
    that "exposes remaining_seconds() computed against wall-clock time at
    the moment of use"; nothing more is assumed, so both the type and the
    method stay parameters, the clock being part of [Net]. *)
Class Expiry (Net : Type) : Type := {
  ExpirationTime : Type;
  remaining_seconds : ExpirationTime -> Net -> Z
}.

(** One entry of the ghost trace: a call into the transport together with
    what it answered. *)
Inductive event : Type :=
| EvConnect (ip : string) (port : Z) (res : option redisContext)
| EvCommand (c : command) (res : option redisReply)
| EvFree.

(** Modelled from the spec: [set_errmsg] is a variadic member declared in
    redis_client.h.  The last error is "overwritten on every failing call,
    never accumulated"; it is kept as the list of the arguments of the last
    [set_errmsg] call, in order, their rendering as text being the header's
    business. *)
Inductive errarg : Type :=
| EText (s : string)            (* a literal, a [std::string], a [char] *)
| ECStr (p : option string)     (* a [char*]: the C string it points at *)
| ENum (z : Z).                 (* an integer of any width *)

Definition of_char_ptr (p : option string) : errarg :=
  ECStr (option_map c_string p).

(** Modelled from the spec: the [SetOpType] enumerators are declared in
    redis_client.h.  The document lists them as {Anyhow, IfNotExist,
    IfExist}, and [kSetOpErrMsg] below is indexed by them in that order. *)
Definition kSetAnyhow     : Z := 0.
Definition kSetIfNotExist : Z := 1.
Definition kSetIfExist    : Z := 2.
Definition kSetOpCnt      : nat := 3.

Definition kSetOpErrMsg : list string :=
  [ "Unknow error"; "Key already exist"; "Key not exist" ].

(** [std::map<std::string, std::string>], as the sequence of its entries in
    iteration order (a [std::map] iterates in increasing key order and
    holds each key once). *)
Definition fields_map : Type := list (string * string).

(* ================================================================== *)
(** ** The client *)

Section Client.

Context {Net : Type} {transport : Hiredis Net} {expiry : Expiry Net}.

(** The data members of [RedisClient].  [m_context] is the owned
    [redisContext*]. *)
Record RedisClient : Type := mkClient {
  m_ip_port : string;
  m_ip : string;
  m_port : Z;
  m_context : option redisContext;
  m_errmsg : list errarg
}.

(** A client, the world it talks to, and the transport calls made so far,
    most recent first. *)
Record State : Type := mkState {
  self : RedisClient;
  net : Net;
  trace : list event
}.

(** Member functions are state transformers. *)
Definition M (A : Type) : Type := State -> A * State.

Definition ret {A} (a : A) : M A := fun st => (a, st).

Definition bind {A B} (m : M A) (k : A -> M B) : M B :=
  fun st => let (a, st') := m st in k a st'.

Notation "x <- m ;; k" := (bind m (fun x => k))
  (at level 61, m at next level, right associativity).
Notation "m ;; k" := (bind m (fun _ => k))
  (at level 61, right associativity).

Definition member {A} (f : RedisClient -> A) : M A :=
  fun st => (f (self st), st).

Definition assign_context (c : option redisContext) : M unit :=
  fun st =>
    (tt, mkState (mkClient (m_ip_port (self st)) (m_ip (self st))
                           (m_port (self st)) c (m_errmsg (self st)))
                 (net st) (trace st)).

Definition set_errmsg (args : list errarg) : M unit :=
  fun st =>
    (tt, mkState (mkClient (m_ip_port (self st)) (m_ip (self st))
                           (m_port (self st)) (m_context (self st)) args)
                 (net st) (trace st)).

(** The three entry points into hiredis, each leaving its mark on the
    trace. *)
Definition call_connect (ip : string) (port : Z) (timeout_sec : Z)
  : M (option redisContext) :=
  fun st =>
    let (res, net') := redisConnectWithTimeout ip port timeout_sec (net st) in
    (res, mkState (self st) net' (EvConnect ip port res :: trace st)).

Definition call_command (c : redisContext) (cmd : command)
  : M (option redisReply * redisContext) :=
  fun st =>
    let '(res, c', net') := redisCommand c cmd (net st) in
    ((res, c'), mkState (self st) net' (EvCommand cmd res :: trace st)).

Definition call_free (c : redisContext) : M unit :=
  fun st => (tt, mkState (self st) (redisFree c (net st)) (EvFree :: trace st)).

(** Modelled from the spec: [has_context] and [free_context] are inline
    members of redis_client.h.  The document's [release()] "releases the
    transport handle unconditionally and clears it; idempotent", and
    [ensure_connected] treats "a handle exists" as being connected. *)
Definition has_context : M bool :=
  member (fun c => match m_context c with Some _ => true | None => false end).

Definition free_context : M unit :=
  ctx <- member m_context ;;
  match ctx with
  | Some c => call_free c ;; assign_context None
  | None => ret tt
  end.

(** [RedisClient::alloc_context], lines 314-330. *)
Definition alloc_context : M bool :=
  ip <- member m_ip ;;
  port <- member m_port ;;
  ctx <- call_connect ip port 2 ;;
  assign_context ctx ;;
  match ctx with
  | Some c =>
      if err c =? 0 then ret true
      else
        ip_port <- member m_ip_port ;;
        set_errmsg [EText "Failed to connect to "; EText ip_port; EText ": ";
                    EText (errstr c); EText " ("; ENum (err c); EText ")"] ;;
        free_context ;;
        ret false
  | None =>
      ip_port <- member m_ip_port ;;
      set_errmsg [EText "Failed to connect to "; EText ip_port;
                  EText ": Cannot allocate redisContext"] ;;
      ret false
  end.

(** The body shared by the three executors: connect if there is no handle,
    run the command, and on a null reply record the transport's error and
    drop the handle.  [RedisClient::exec], lines 332-348, is this body on a
    formatted command. *)
Definition run_command (cmd : command) : M (option redisReply) :=
  connected <- has_context ;;
  ready <- (if connected then ret true else alloc_context) ;;
  if negb ready then ret None
  else
    ctx <- member m_context ;;
    match ctx with
    | None => ret None   (* not reached: [ready] means a handle is held *)
    | Some c =>
        out <- call_command c cmd ;;
        let (reply, c') := out in
        assign_context (Some c') ;;
        match reply with
        | Some r => ret (Some r)
        | None =>
            set_errmsg [EText (errstr c'); EText " ("; ENum (err c');
                        EText ")"] ;;
            free_context ;;
            ret None
        end
    end.

Definition exec (fmt : string) (args : list fmtarg) : M (option redisReply) :=
  run_command (Formatted fmt args).

(** Modelled from the spec: [execv] and [execm] are defined in
    redis_client.h.  The document says a variadic command takes "a command
    name, an optional single destination/primary key, and an ordered
    sequence of additional keys/values", that a map command takes "a key
    plus a mapping from field name to field value" walked in the map's own
    order, and that "any operation whose transport call fails must call
    release()".  They are therefore [exec]'s body on an argument vector. *)
Definition execv (cmd : string) (key : option string) (args : list string)
  : M (option redisReply) :=
  run_command
    (Argv (cmd :: match key with Some k => [k] | None => [] end ++ args)).

Definition execm (cmd key : string) (fields : fields_map) (with_vals : bool)
  : M (option redisReply) :=
  run_command
    (Argv (cmd :: key ::
           flat_map (fun kv => if with_vals then [fst kv; snd kv]
                               else [fst kv]) fields)).

(** The macro [CHECK_REPLY], lines 52-67.  It leaves the enclosing method
    with [false] unless the reply has the expected type; [returned_false]
    is what the method hands back in that case (the [false], next to its
    untouched reference results) and [rest] is the code after the macro. *)
Definition CHECK_REPLY {A} (reply_ : option redisReply)
    (expectedReplyType_ : Z) (returned_false : A) (rest : redisReply -> M A)
  : M A :=
  match reply_ with
  | None => ret returned_false
  | Some r =>
      if type r =? expectedReplyType_ then rest r
      else if type r =? REDIS_REPLY_ERROR then
        set_errmsg [of_char_ptr (str r)] ;; ret returned_false
      else
        set_errmsg [EText "Unexpected reply type "; ENum (type r)] ;;
        ret returned_false
  end.

(** [select_db], lines 69-74. *)
Definition select_db (dbidx : Z) : M bool :=
  reply <- exec "SELECT %d" [ArgNum dbidx] ;;
  CHECK_REPLY reply REDIS_REPLY_STATUS false (fun _ => ret true).

(** The tail shared by [expire] and [expire_at], lines 81-86 and 95-100. *)
Definition expire_result (reply : redisReply) : M bool :=
  if integer reply =? 1 then ret true
  else
    set_errmsg [EText "Key does not exist or the timeout could not be set. reply->integer is ";
                ENum (integer reply)] ;;
    ret false.

(** [expire], lines 76-87.  [seconds] is an [unsigned int]. *)
Definition expire (key : string) (seconds : Z) : M bool :=
  reply <- exec "EXPIRE %b %u" [ArgBytes key; ArgNum seconds] ;;
  CHECK_REPLY reply REDIS_REPLY_INTEGER false expire_result.

(** [expire_at], lines 89-101. *)
Definition expire_at (key : string) (expired_tm : Z) : M bool :=
  reply <- exec "EXPIREAT %b %lld" [ArgBytes key; ArgNum expired_tm] ;;
  CHECK_REPLY reply REDIS_REPLY_INTEGER false expire_result.

(** [ttl], lines 103-109.  The second component of the result is the
    reference parameter [ttl] as the call leaves it. *)
Definition ttl (key : string) (ttl_ : Z) : M (bool * Z) :=
  reply <- exec "TTL %b" [ArgBytes key] ;;
  CHECK_REPLY reply REDIS_REPLY_INTEGER (false, ttl_)
    (fun r => ret (true, integer r)).

(** [set], lines 111-175, in three pieces: the [switch] that sends the
    command with an expiry (lines 121-137), the one without (lines
    139-155), and the interpretation of the reply (lines 158-174).  In both
    switches the [default] branch sets the message and leaves [reply]
    null. *)
Definition set_send_ex (key val : string) (ttl_ op_type : Z)
  : M (option redisReply) :=
  if op_type =? kSetAnyhow then
    exec "SET %b %b EX %lld" [ArgBytes key; ArgBytes val; ArgNum ttl_]
  else if op_type =? kSetIfNotExist then
    exec "SET %b %b EX %lld NX" [ArgBytes key; ArgBytes val; ArgNum ttl_]
  else if op_type =? kSetIfExist then
    exec "SET %b %b EX %lld XX" [ArgBytes key; ArgBytes val; ArgNum ttl_]
  else
    set_errmsg [EText "Unsupported op_type "; ENum op_type] ;; ret None.

Definition set_send (key val : string) (op_type : Z)
  : M (option redisReply) :=
  if op_type =? kSetAnyhow then
    exec "SET %b %b" [ArgBytes key; ArgBytes val]
  else if op_type =? kSetIfNotExist then
    exec "SET %b %b NX" [ArgBytes key; ArgBytes val]
  else if op_type =? kSetIfExist then
    exec "SET %b %b XX" [ArgBytes key; ArgBytes val]
  else
    set_errmsg [EText "Unsupported op_type "; ENum op_type] ;; ret None.

Definition set_reply (op_type : Z) (reply : option redisReply) : M bool :=
  match reply with
  | None => ret false
  | Some r =>
      if type r =? REDIS_REPLY_STATUS then ret true
      else if type r =? REDIS_REPLY_NIL then
        set_errmsg [EText (nth (Z.to_nat op_type) kSetOpErrMsg "")] ;;
        ret false
      else if type r =? REDIS_REPLY_ERROR then
        set_errmsg [of_char_ptr (str r)] ;; ret false
      else
        set_errmsg [EText "Unexpected reply type "; ENum (type r)] ;;
        ret false
  end.

Definition set (key val : string) (expire_tm : option ExpirationTime)
    (op_type : Z) : M bool :=
  match expire_tm with
  | Some e =>
      ttl_ <- (fun st => (remaining_seconds e (net st), st)) ;;
      if ttl_ <=? 0 then
        set_errmsg [EText "Invalid expire time"] ;; ret false
      else
        reply <- set_send_ex key val ttl_ op_type ;;
        set_reply op_type reply
  | None =>
      reply <- set_send key val op_type ;;
      set_reply op_type reply
  end.

(** [get], lines 177-204.  [val] is the reference parameter as the caller
    passes it; [key_exists] is the optional pointer: [None] when null,
    [Some b] when it points at a [bool] that currently holds [b].  The
    result carries both as the call leaves them. *)
Definition get (key val : string) (key_exists : option bool)
  : M (bool * (string * option bool)) :=
  reply <- exec "GET %b" [ArgBytes key] ;;
  match reply with
  | None => ret (false, (val, key_exists))
  | Some r =>
      if type r =? REDIS_REPLY_STRING then
        ret (true, (string_of_buf (str r) (len r),
                    option_map (fun _ => true) key_exists))
      else if type r =? REDIS_REPLY_NIL then
        ret (true, (EmptyString, option_map (fun _ => false) key_exists))
      else if type r =? REDIS_REPLY_ERROR then
        set_errmsg [of_char_ptr (str r)] ;; ret (false, (val, key_exists))
      else
        set_errmsg [EText "Unexpected reply type "; ENum (type r)] ;;
        ret (false, (val, key_exists))
  end.

(** The tail of [sadd], [sdiff_store] and [sinter_store]: store the count
    through [cnt] when it is not null. *)
Definition store_count (cnt : option Z) (r : redisReply)
  : M (bool * option Z) :=
  ret (true, option_map (fun _ => integer r) cnt).

(** [sadd], lines 206-214. *)
Definition sadd (key : string) (vals : list string) (cnt : option Z)
  : M (bool * option Z) :=
  reply <- execv "SADD" (Some key) vals ;;
  CHECK_REPLY reply REDIS_REPLY_INTEGER (false, cnt) (store_count cnt).

(** [scard], lines 216-222. *)
Definition scard (key : string) (cnt : Z) : M (bool * Z) :=
  reply <- exec "SCARD %b" [ArgBytes key] ;;
  CHECK_REPLY reply REDIS_REPLY_INTEGER (false, cnt)
    (fun r => ret (true, integer r)).

(** [arr_reply_to_vector], lines 350-357: the old contents of [result] are
    cleared, so the result depends on the replies alone. *)
Definition arr_reply_to_vector (replies : list redisReply) (reply_num : nat)
  : list string :=
  map (fun r => string_of_buf (str r) (len r)) (firstn reply_num replies).

(** [sdiff], lines 224-230. *)
Definition sdiff (keys : list string) (result : list string)
  : M (bool * list string) :=
  reply <- execv "SDIFF" None keys ;;
  CHECK_REPLY reply REDIS_REPLY_ARRAY (false, result)
    (fun r => ret (true, arr_reply_to_vector (element r) (elements r))).

(** [sdiff_store], lines 232-240. *)
Definition sdiff_store (dest : string) (keys : list string) (cnt : option Z)
  : M (bool * option Z) :=
  reply <- execv "SDIFFSTORE" (Some dest) keys ;;
  CHECK_REPLY reply REDIS_REPLY_INTEGER (false, cnt) (store_count cnt).

(** [sinter], lines 242-248. *)
Definition sinter (keys : list string) (result : list string)
  : M (bool * list string) :=
  reply <- execv "SINTER" None keys ;;
  CHECK_REPLY reply REDIS_REPLY_ARRAY (false, result)
    (fun r => ret (true, arr_reply_to_vector (element r) (elements r))).

(** [sinter_store], lines 250-258. *)
Definition sinter_store (dest : string) (keys : list string) (cnt : option Z)
  : M (bool * option Z) :=
  reply <- execv "SINTERSTORE" (Some dest) keys ;;
  CHECK_REPLY reply REDIS_REPLY_INTEGER (false, cnt) (store_count cnt).

(** [sismember], lines 260-267: the [long long] converts to [bool]. *)
Definition sismember (key val : string) (is_member : bool)
  : M (bool * bool) :=
  reply <- exec "SISMEMBER %b %b" [ArgBytes key; ArgBytes val] ;;
  CHECK_REPLY reply REDIS_REPLY_INTEGER (false, is_member)
    (fun r => ret (true, negb (integer r =? 0))).

(** The loop of [hget], lines 282-300.  [its] is what the iterator still
    has to visit and [n] the index it has reached; the result is the
    verdict with those entries as the loop leaves them.  Both failure
    branches read [reply], the array itself, not the element [r]. *)
Fixpoint hget_loop (reply : redisReply) (its : fields_map) (n : nat)
  : M (bool * fields_map) :=
  match its with
  | [] => ret (true, [])
  | (field, old) :: later =>
      match nth_error (element reply) n with
      | None => ret (false, its)   (* not reached: the sizes were compared *)
      | Some r =>
          if type r =? REDIS_REPLY_STRING then
            out <- hget_loop reply later (S n) ;;
            ret (fst out, (field, string_of_cstr (str r)) :: snd out)
          else if type r =? REDIS_REPLY_NIL then
            out <- hget_loop reply later (S n) ;;
            ret (fst out, (field, EmptyString) :: snd out)
          else if type r =? REDIS_REPLY_ERROR then
            set_errmsg [of_char_ptr (str reply)] ;; ret (false, its)
          else
            set_errmsg [EText "Unexpected reply type "; ENum (type reply)] ;;
            ret (false, its)
      end
  end.

(** [hget], lines 271-302.  The second component is the map [fields] as the
    call leaves it. *)
Definition hget (key : string) (fields : fields_map)
  : M (bool * fields_map) :=
  reply <- execm "HMGET" key fields false ;;
  CHECK_REPLY reply REDIS_REPLY_ARRAY (false, fields)
    (fun r =>
       if negb (elements r =? List.length fields)%nat then
         set_errmsg [EText "Invalid number of elements returned! Expected ";
                     ENum (Z.of_nat (List.length fields));
                     EText ", Returned "; ENum (Z.of_nat (elements r))] ;;
         ret (false, fields)
       else hget_loop r fields 0).

(** [hset], lines 304-309. *)
Definition hset (key : string) (fields : fields_map) : M bool :=
  reply <- execm "HMSET" key fields true ;;
  CHECK_REPLY reply REDIS_REPLY_STATUS false (fun _ => ret true).

(** ** Construction *)

(** [s.find_last_of(c)]: the index of the last [c] in [s], if any. *)
Fixpoint find_last_of (s : string) (c : ascii) : option nat :=
  match s with
  | EmptyString => None
  | String a rest =>
      match find_last_of rest c with
      | Some p => Some (S p)
      | None => if Ascii.eqb a c then Some 0%nat else None
      end
  end.

(** [s.substr(pos)]. *)
Definition substr (s : string) (pos : nat) : string :=
  substring pos (String.length s - pos) s.

(** [atoi] belongs to the C library; the constructor is verified for any
    function in its place. *)
Variable atoi : string -> Z.

Definition invalid_ip_port (ip_port : string) : string :=
  "Invalid ip_port [" ++ ip_port ++ "]".

(** [RedisClient::RedisClient], lines 26-47.  [inl what] is the
    [runtime_error] thrown, [inr st] the constructed client in its world.
    The members are first written by the constructor's body, so the client
    starts with no handle, no message and an empty trace; the result of
    [alloc_context] is not looked at. *)
Definition RedisClient_new (ip_port : string) (world : Net)
  : string + State :=
  let construct (ip : string) (port : Z) : string + State :=
    inr (snd (alloc_context
                (mkState (mkClient ip_port ip port None []) world []))) in
  match find_last_of ip_port ":" with
  | None => inl (invalid_ip_port ip_port)
  | Some pos =>
      let ip := substring 0 pos ip_port in
      let pos := S pos in
      if (pos <? String.length ip_port)%nat then
        let port := atoi (substr ip_port pos) in
        if (port <=? 0) || (65535 <? port)
        then inl (invalid_ip_port ip_port)
        else construct ip port
      else construct ip 6379
  end.

(** ** Every public method, as one call *)

(** A call of a public method with its arguments; reference and pointer
    parameters are given with the value they hold on entry. *)
Inductive operation : Type :=
| OpSelectDb (dbidx : Z)
| OpExpire (key : string) (seconds : Z)
| OpExpireAt (key : string) (expired_tm : Z)
| OpTtl (key : string) (ttl_ : Z)
| OpSet (key val : string) (expire_tm : option ExpirationTime) (op_type : Z)
| OpGet (key val : string) (key_exists : option bool)
| OpSadd (key : string) (vals : list string) (cnt : option Z)
| OpScard (key : string) (cnt : Z)
| OpSdiff (keys result : list string)
| OpSdiffStore (dest : string) (keys : list string) (cnt : option Z)
| OpSinter (keys result : list string)
| OpSinterStore (dest : string) (keys : list string) (cnt : option Z)
| OpSismember (key val : string) (is_member : bool)
| OpHget (key : string) (fields : fields_map)
| OpHset (key : string) (fields : fields_map).

Definition verdict {A} (m : M (bool * A)) : M bool :=
  out <- m ;; ret (fst out).

(** The [bool] a call returns, and the state it leaves. *)
Definition perform (op : operation) : M bool :=
  match op with
  | OpSelectDb dbidx => select_db dbidx
  | OpExpire key seconds => expire key seconds
  | OpExpireAt key expired_tm => expire_at key expired_tm
  | OpTtl key ttl_ => verdict (ttl key ttl_)
  | OpSet key val expire_tm op_type => set key val expire_tm op_type
  | OpGet key val key_exists => verdict (get key val key_exists)
  | OpSadd key vals cnt => verdict (sadd key vals cnt)
  | OpScard key cnt => verdict (scard key cnt)
  | OpSdiff keys result => verdict (sdiff keys result)
  | OpSdiffStore dest keys cnt => verdict (sdiff_store dest keys cnt)
  | OpSinter keys result => verdict (sinter keys result)
  | OpSinterStore dest keys cnt => verdict (sinter_store dest keys cnt)
  | OpSismember key val is_member => verdict (sismember key val is_member)
  | OpHget key fields => verdict (hget key fields)
  | OpHset key fields => hset key fields
  end.

(** ** Vocabulary of the properties *)

(** The operation types [set] knows. *)
Definition recognised (op_type : Z) : Prop :=
  op_type = kSetAnyhow \/ op_type = kSetIfNotExist \/ op_type = kSetIfExist.

(** A transport call that failed: no context could be allocated, the
    context came back with an error, or a command got no reply. *)
Definition failed (e : event) : bool :=
  match e with
  | EvConnect _ _ None => true
  | EvConnect _ _ (Some c) => negb (err c =? 0)
  | EvCommand _ None => true
  | EvCommand _ (Some _) => false
  | EvFree => false
  end.

(** Reading a trace from its most recent event backwards: the last connect
    succeeded and everything since is a command that got its reply. *)
Fixpoint live (t : list event) : bool :=
  match t with
  | EvCommand _ (Some _) :: earlier => live earlier
  | EvConnect _ _ (Some c) :: _ => err c =? 0
  | _ => false
  end.

(** The state invariant of the connection handle. *)
Definition handle_invariant (st : State) : Prop :=
  m_context (self st) <> None -> live (trace st) = true.

Definition connect_attempts (t : list event) : nat :=
  List.length
    (filter (fun e => match e with EvConnect _ _ _ => true | _ => false end) t).

(** Between [st] and [st'] the transport answered a command with reply
    [r], and that is the last thing it was asked. *)
Definition replied (st st' : State) (r : redisReply) : Prop :=
  exists cmd before,
    trace st' = EvCommand cmd (Some r) :: before ++ trace st.

(** What the design document asks of [expire] and [expire_at], for a call
    that went from [st] to [st'] and returned [b]. *)
Definition expire_verdict (st st' : State) (b : bool) : Prop :=
  (b = true <->
   exists r, replied st st' r /\
             type r = REDIS_REPLY_INTEGER /\ integer r = 1) /\
  (forall r, replied st st' r ->
     (type r = REDIS_REPLY_INTEGER -> integer r = 0 ->
        b = false /\
        m_errmsg (self st') =
        [EText "Key does not exist or the timeout could not be set. reply->integer is ";
         ENum 0]) /\
     (type r = REDIS_REPLY_ERROR ->
        b = false /\ m_errmsg (self st') = [of_char_ptr (str r)]) /\
     (type r <> REDIS_REPLY_INTEGER -> type r <> REDIS_REPLY_ERROR ->
        b = false /\
        m_errmsg (self st') =
        [EText "Unexpected reply type "; ENum (type r)])).

(** The states a client can be in: freshly constructed, or left by a call
    of a public method on a client that could be reached. *)
Inductive reachable : State -> Prop :=
| reachable_new ip_port world st :
    RedisClient_new ip_port world = inr st -> reachable st
| reachable_call op st b st' :
    reachable st -> perform op st = (b, st') -> reachable st'.

(** A byte string without a NUL byte. *)
Fixpoint nul_free (s : string) : bool :=
  match s with
  | EmptyString => true
  | String c rest => negb (Ascii.eqb c Ascii.zero) && nul_free rest
  end.

(** A method keeps its reference and pointer results, given as [old] on
    entry, whenever it returns [false]. *)
Definition keeps_on_false {A} (call : M (bool * A)) (old : A) : Prop :=
  forall st, fst (fst (call st)) = false -> snd (fst (call st)) = old.

(** What one run of an executor can add to the trace (most recent first)
    and the reply it then returns, given the handle held on entry. *)
Inductive attempt (ip : string) (port : Z) (cmd : command)
  : option redisContext -> list event -> option redisReply -> Prop :=
| attempt_reuse c r :
    attempt ip port cmd (Some c) [EvCommand cmd (Some r)] (Some r)
| attempt_reuse_lost c :
    attempt ip port cmd (Some c) [EvFree; EvCommand cmd None] None
| attempt_no_context :
    attempt ip port cmd None [EvConnect ip port None] None
| attempt_refused c :
    err c <> 0 ->
    attempt ip port cmd None [EvFree; EvConnect ip port (Some c)] None
| attempt_fresh c r :
    err c = 0 ->
    attempt ip port cmd None
      [EvCommand cmd (Some r); EvConnect ip port (Some c)] (Some r)
| attempt_fresh_lost c :
    err c = 0 ->
    attempt ip port cmd None
      [EvFree; EvCommand cmd None; EvConnect ip port (Some c)] None.

(** [st'] is [st] with at most another last-error message. *)
Definition same_link (st st' : State) : Prop :=
  net st' = net st /\ trace st' = trace st /\
  m_context (self st') = m_context (self st) /\
  m_ip (self st') = m_ip (self st) /\
  m_port (self st') = m_port (self st) /\
  m_ip_port (self st') = m_ip_port (self st).

(** A piece of code that only computes and sets the message. *)
Definition quiet {A} (m : M A) : Prop :=
  forall st, same_link st (snd (m st)).

(** The shape every public method has: at each state it either gives up
    with [false] before reaching the transport, or runs an executor once
    and interprets the reply without touching the link again, a null reply
    giving [false]. *)
Definition one_attempt (m : M bool) : Prop :=
  forall st,
    (same_link st (snd (m st)) /\ fst (m st) = false) \/
    (exists cmd (tail : option redisReply -> M bool),
        (forall reply, quiet (tail reply)) /\
        (forall st0, fst (tail None st0) = false) /\
        m st = bind (run_command cmd) tail st).

(** ** Vocabulary of the further properties *)

(** A byte string in which the byte [c] does not occur. *)
Fixpoint lacks (c : ascii) (s : string) : bool :=
  match s with
  | EmptyString => true
  | String a rest => negb (Ascii.eqb a c) && lacks c rest
  end.

Definition commands_sent (t : list event) : nat :=
  List.length
    (filter (fun e => match e with EvCommand _ _ => true | _ => false end) t).

(** Where the link stands after a sequence of transport calls: no context
    ([Idle]), a working one ([Ready]), one that came back from connect with
    an error ([Refused]) or one on which a command got no reply ([Lost]);
    the last two are waiting to be freed. *)
Inductive phase : Type := Idle | Ready | Refused | Lost.

(** The calls hiredis allows in each phase.  Connecting is for a client
    without a context, commands need a working context, and only a context
    that exists can be freed; anything else is [None]. *)
Definition phase_step (ph : phase) (e : event) : option phase :=
  match ph, e with
  | Idle, EvConnect _ _ None => Some Idle
  | Idle, EvConnect _ _ (Some c) =>
      if err c =? 0 then Some Ready else Some Refused
  | Ready, EvCommand _ (Some _) => Some Ready
  | Ready, EvCommand _ None => Some Lost
  | Ready, EvFree => Some Idle
  | Refused, EvFree => Some Idle
  | Lost, EvFree => Some Idle
  | _, _ => None
  end.

(** The phase a whole trace (most recent call first) leaves the link in, if
    every call in it was allowed when it was made. *)
Fixpoint link_phase (t : list event) : option phase :=
  match t with
  | [] => Some Idle
  | e :: earlier =>
      match link_phase earlier with
      | Some ph => phase_step ph e
      | None => None
      end
  end.

(** The bytes a reply carries, all [len] of them. *)
Definition payload (r : redisReply) : string := string_of_buf (str r) (len r).

(** The transport, asked from state [st], would answer the command [cmd]
    with the reply [r]: on the handle the client holds, or, when it holds
    none, on the context of a connection to its host and port that comes
    back without error. *)
Definition answers (st : State) (cmd : command) (r : redisReply) : Prop :=
  match m_context (self st) with
  | Some c => fst (fst (redisCommand c cmd (net st))) = Some r
  | None =>
      match redisConnectWithTimeout (m_ip (self st)) (m_port (self st)) 2
                                    (net st) with
      | (Some c, w) =>
          err c = 0 /\ fst (fst (redisCommand c cmd w)) = Some r
      | (None, _) => False
      end
  end.

(** The method [call] lives on the reply to the command [cmd]: whenever the
    transport would answer [cmd], the call has sent it and got that answer,
    and the call reports success ([ok]) only when it got a reply. *)
Definition lives_on_reply {A} (call : M A) (cmd : command) (ok : A -> bool)
  : Prop :=
  forall st out st',
    call st = (out, st') ->
    (forall r, answers st cmd r -> replied st st' r) /\
    (ok out = true -> exists r, replied st st' r).

(** The calls that end before they reach the transport: a [set] whose
    expiry has no time left or whose operation type is not a recognised
    one.  Every other call goes to the transport. *)
Definition gives_up_early (op : operation) (st : State) : Prop :=
  match op with
  | OpSet _ _ expire_tm op_type =>
      (exists e, expire_tm = Some e /\ remaining_seconds e (net st) <= 0) \/
      ~ recognised op_type
  | _ => False
  end.

(** What the transport answers when the client asks for its connection. *)
Definition connect_answer (st : State) : option redisContext :=
  fst (redisConnectWithTimeout (m_ip (self st)) (m_port (self st)) 2 (net st)).

(** The method [call], with results in reference or pointer parameters,
    succeeds exactly on a reply of the [expected] kind and then leaves
    [value] of that reply in its results. *)
Definition hands_back {A} (call : M (bool * A)) (expected : Z)
    (value : redisReply -> A) : Prop :=
  forall st out st' r,
    call st = (out, st') ->
    replied st st' r ->
    (fst out = true <-> type r = expected) /\
    (type r = expected -> snd out = value r).

End Client.

Arguments State Net : clear implicits.
Arguments M Net A : clear implicits.

Notation "x <- m ;; k" := (bind m (fun x => k))
  (at level 61, m at next level, right associativity).
Notation "m ;; k" := (bind m (fun _ => k))
  (at level 61, right associativity).

(* ================================================================== *)
(** ** A scripted transport

    A world in which the answers of the network are written down in
    advance: one list for the connection attempts, one for the commands.
    When a list runs out the server is unreachable.  It serves to run the
    client on concrete inputs. *)

Record script : Type := mkScript {
  connect_answers : list (option redisContext);
  command_answers : list (option redisReply);
  clock : Z
}.

(** hiredis reports a lost connection as [REDIS_ERR_EOF]. *)
Definition connection_lost : redisContext :=
  mkContext 3 "Server closed the connection".

#[export] Instance scripted_transport : Hiredis script := {
  redisConnectWithTimeout _ _ _ w :=
    match connect_answers w with
    | [] => (None, w)
    | a :: later => (a, mkScript later (command_answers w) (clock w))
    end;
  redisCommand c _ w :=
    match command_answers w with
    | [] => (None, connection_lost, w)
    | a :: later =>
        (a, match a with Some _ => c | None => connection_lost end,
         mkScript (connect_answers w) later (clock w))
    end;
  redisFree _ w := w
}.

(** An expiry for the scripted world: an absolute instant, compared with
    the script's clock, or a number of seconds from now. *)
Inductive sample_expiry : Type :=
| ExpireAtInstant (t : Z)
| ExpireAfter (secs : Z).

#[export] Instance scripted_expiry : Expiry script := {
  ExpirationTime := sample_expiry;
  remaining_seconds e w :=
    match e with
    | ExpireAtInstant t => t - clock w
    | ExpireAfter secs => secs
    end
}.

(** A stand-in for [atoi] on the inputs used below: the value of the
    leading decimal digits. *)
Fixpoint leading_digits (s : string) (acc : Z) : Z :=
  match s with
  | EmptyString => acc
  | String c rest =>
      let d := (Z.of_nat (nat_of_ascii c) - 48) in
      if (0 <=? d) && (d <=? 9) then leading_digits rest (10 * acc + d)
      else acc
  end.

Definition sample_atoi (s : string) : Z := leading_digits s 0.

Definition ok_context : redisContext := mkContext 0 "".

(** A reply of each kind. *)
Definition string_reply (b : string) : redisReply :=
  mkReply REDIS_REPLY_STRING 0 (Some b) [].
Definition array_reply (l : list redisReply) : redisReply :=
  mkReply REDIS_REPLY_ARRAY 0 None l.
Definition integer_reply (z : Z) : redisReply :=
  mkReply REDIS_REPLY_INTEGER z None [].
Definition nil_reply : redisReply :=
  mkReply REDIS_REPLY_NIL 0 None [].
Definition status_reply (b : string) : redisReply :=
  mkReply REDIS_REPLY_STATUS 0 (Some b) [].
Definition error_reply (b : string) : redisReply :=
  mkReply REDIS_REPLY_ERROR 0 (Some b) [].

(** A client of the scripted world that holds a handle. *)
Definition connected_client (w : script) : State script :=
  mkState (mkClient "127.0.0.1:6379" "127.0.0.1" 6379 (Some ok_context) [])
          w [EvConnect "127.0.0.1" 6379 (Some ok_context)].

(** A world whose server gives the listed answers to the next commands and
    accepts no new connection. *)
Definition answering (answers : list (option redisReply)) : script :=
  mkScript [] answers 0.

(** A world whose server accepts one connection and then goes silent. *)
Definition listening : script := mkScript [Some ok_context] [] 0.

(** A world whose server refuses the next connection. *)
Definition refusing : script :=
  mkScript [Some (mkContext 1 "Connection refused")] [] 0.

(** A client of the scripted world without a handle. *)
Definition idle_client (w : script) : State script :=
  mkState (mkClient "127.0.0.1:6379" "127.0.0.1" 6379 None []) w [].

(** A client that holds a handle and still carries the message of an
    earlier failure. *)
Definition stale_client (w : script) : State script :=
  mkState (mkClient "127.0.0.1:6379" "127.0.0.1" 6379 (Some ok_context)
                    [EText "Unexpected reply type "; ENum 3])
          w [EvConnect "127.0.0.1" 6379 (Some ok_context)].

(** A world whose server drops the connection at the next command, accepts
    a new one and then answers. *)
Definition flaky (answer : redisReply) : script :=
  mkScript [Some ok_context] [None; Some answer] 0.

(** A value with a NUL byte in the middle. *)
Definition binary_value : string :=
  String "a" (String "b" (String Ascii.zero (String "c" EmptyString))).

(* ================================================================== *)
(** ** Properties *)

Unset Implicit Arguments.

Section Properties.

Context {Net : Type} {transport : Hiredis Net} {expiry : Expiry Net}.

Local Abbreviation State := (State Net).
Local Abbreviation M := (M Net).

Ltac unfold_link :=
  unfold run_command, has_context, alloc_context, free_context, call_connect,
    call_command, call_free, assign_context, set_errmsg, member, bind, ret.

(** *** The executor *)

Lemma run_command_attempt (cmd : command) (st : State) reply st1 :
  run_command cmd st = (reply, st1) ->
  exists new,
    trace st1 = new ++ trace st /\
    attempt (m_ip (self st)) (m_port (self st)) cmd
            (m_context (self st)) new reply /\
    m_ip (self st1) = m_ip (self st) /\
    m_port (self st1) = m_port (self st) /\
    m_ip_port (self st1) = m_ip_port (self st) /\
    match reply with
    | Some _ => m_context (self st1) <> None /\
                m_errmsg (self st1) = m_errmsg (self st)
    | None => m_context (self st1) = None
    end.
Proof.
  destruct st as [[ip_port ip port ctx msg] w t].
  unfold_link; simpl.
  destruct ctx as [c|]; simpl.
  - destruct (redisCommand c cmd w) as [[[r|] c'] w'] eqn:E; simpl;
      intros H; inversion H; subst; clear H; simpl.
    + exists [EvCommand cmd (Some r)]; repeat split; try constructor; congruence.
    + exists [EvFree; EvCommand cmd None]; repeat split; constructor.
  - destruct (redisConnectWithTimeout ip port 2 w) as [[c|] w0] eqn:E0; simpl.
    + destruct (err c =? 0) eqn:Ec; simpl.
      * apply Z.eqb_eq in Ec.
        destruct (redisCommand c cmd w0) as [[[r|] c'] w'] eqn:E; simpl;
          intros H; inversion H; subst; clear H; simpl.
        -- exists [EvCommand cmd (Some r); EvConnect ip port (Some c)];
             repeat split; try (constructor; assumption); congruence.
        -- exists [EvFree; EvCommand cmd None; EvConnect ip port (Some c)];
             repeat split; constructor; assumption.
      * apply Z.eqb_neq in Ec.
        intros H; inversion H; subst; clear H; simpl.
        exists [EvFree; EvConnect ip port (Some c)];
          repeat split; constructor; assumption.
    + intros H; inversion H; subst; clear H; simpl.
      exists [EvConnect ip port None]; repeat split; constructor.
Qed.

(** *** Code that leaves the link alone *)

Lemma same_link_refl (st : State) : same_link st st.
Proof. repeat split. Qed.

Lemma same_link_trans (a b c : State) :
  same_link a b -> same_link b c -> same_link a c.
Proof. unfold same_link; intuition congruence. Qed.

Lemma quiet_ret {A} (a : A) : quiet (Net:=Net) (ret a).
Proof. intros st; apply same_link_refl. Qed.

Lemma quiet_set_errmsg args : quiet (Net:=Net) (set_errmsg args).
Proof. intros st; repeat split. Qed.

Lemma quiet_bind {A B} (m : M A) (k : A -> M B) :
  quiet m -> (forall a, quiet (k a)) -> quiet (bind m k).
Proof.
  intros Hm Hk st; unfold bind.
  specialize (Hm st); destruct (m st) as [a st1]; simpl in Hm.
  eapply same_link_trans; [exact Hm | apply Hk].
Qed.

Create HintDb link.
#[local] Hint Resolve quiet_ret quiet_set_errmsg quiet_bind : link.

Lemma quiet_CHECK_REPLY {A} reply expected (no : A)
    (rest : redisReply -> M A) :
  (forall r, quiet (rest r)) -> quiet (CHECK_REPLY reply expected no rest).
Proof.
  intros H; unfold CHECK_REPLY.
  destruct reply as [r|]; [|auto with link].
  destruct (type r =? expected); [apply H|].
  destruct (type r =? REDIS_REPLY_ERROR); auto with link.
Qed.

Lemma quiet_expire_result r : quiet (Net:=Net) (expire_result r).
Proof.
  unfold expire_result; destruct (integer r =? 1); auto with link.
Qed.

Lemma quiet_set_reply op reply : quiet (Net:=Net) (set_reply op reply).
Proof.
  unfold set_reply; destruct reply as [r|]; [|auto with link].
  destruct (type r =? REDIS_REPLY_STATUS); [auto with link|].
  destruct (type r =? REDIS_REPLY_NIL); [auto with link|].
  destruct (type r =? REDIS_REPLY_ERROR); auto with link.
Qed.

Lemma quiet_hget_loop reply its :
  forall n, quiet (Net:=Net) (hget_loop reply its n).
Proof.
  induction its as [|[field old] later IH]; intros n; simpl.
  - auto with link.
  - destruct (nth_error (element reply) n) as [r|]; [|auto with link].
    destruct (type r =? REDIS_REPLY_STRING); [auto with link|].
    destruct (type r =? REDIS_REPLY_NIL); [auto with link|].
    destruct (type r =? REDIS_REPLY_ERROR); auto with link.
Qed.

#[local] Hint Resolve quiet_CHECK_REPLY quiet_expire_result quiet_set_reply
  quiet_hget_loop : link.

(** *** Recognising the reply of a call in the trace *)

Lemma not_longer_than_itself {A} (x : A) (pre l : list A) :
  l <> x :: pre ++ l.
Proof.
  intros H; apply (f_equal (@List.length A)) in H.
  simpl in H; rewrite length_app in H; lia.
Qed.

Lemma same_link_not_replied (st st' : State) r :
  same_link st st' -> ~ replied st st' r.
Proof.
  intros (_ & Ht & _) (cmd & before & H).
  rewrite Ht in H; eapply not_longer_than_itself; exact H.
Qed.

Lemma replied_inv {A} cmd (tail : option redisReply -> M A) st a st' r :
  (forall reply, quiet (tail reply)) ->
  bind (run_command cmd) tail st = (a, st') ->
  replied st st' r ->
  exists st1, run_command cmd st = (Some r, st1) /\
              tail (Some r) st1 = (a, st').
Proof.
  intros Hq Hrun (cmd' & before & Ht).
  unfold bind in Hrun.
  destruct (run_command cmd st) as [reply st1] eqn:E.
  destruct (run_command_attempt _ _ _ _ E) as (new & Hnew & Hat & _).
  assert (Hsame : trace st' = trace st1).
  { specialize (Hq reply st1); rewrite Hrun in Hq; apply Hq. }
  rewrite Hsame, Hnew in Ht.
  assert (Hhead : forall e, hd_error new = Some e ->
                            e = EvCommand cmd' (Some r)).
  { intros e He; destruct new as [|e0 new0]; [discriminate|].
    simpl in He, Ht; congruence. }
  exists st1.
  inversion Hat; subst; simpl in Hhead;
    specialize (Hhead _ eq_refl); try discriminate;
    inversion Hhead; subst; auto.
Qed.

(** *** [set] *)

Lemma set_send_ex_shape key val ttl_ op_type :
  (recognised op_type /\
   exists cmd, set_send_ex (Net:=Net) key val ttl_ op_type = run_command cmd) \/
  (~ recognised op_type /\
   set_send_ex (Net:=Net) key val ttl_ op_type =
   (set_errmsg [EText "Unsupported op_type "; ENum op_type] ;; ret None)).
Proof.
  unfold set_send_ex, recognised, exec.
  destruct (op_type =? kSetAnyhow) eqn:E0;
    [apply Z.eqb_eq in E0; left; eauto|apply Z.eqb_neq in E0].
  destruct (op_type =? kSetIfNotExist) eqn:E1;
    [apply Z.eqb_eq in E1; left; eauto|apply Z.eqb_neq in E1].
  destruct (op_type =? kSetIfExist) eqn:E2;
    [apply Z.eqb_eq in E2; left; eauto|apply Z.eqb_neq in E2].
  right; split; [tauto|reflexivity].
Qed.

Lemma set_send_shape key val op_type :
  (recognised op_type /\
   exists cmd, set_send (Net:=Net) key val op_type = run_command cmd) \/
  (~ recognised op_type /\
   set_send (Net:=Net) key val op_type =
   (set_errmsg [EText "Unsupported op_type "; ENum op_type] ;; ret None)).
Proof.
  unfold set_send, recognised, exec.
  destruct (op_type =? kSetAnyhow) eqn:E0;
    [apply Z.eqb_eq in E0; left; eauto|apply Z.eqb_neq in E0].
  destruct (op_type =? kSetIfNotExist) eqn:E1;
    [apply Z.eqb_eq in E1; left; eauto|apply Z.eqb_neq in E1].
  destruct (op_type =? kSetIfExist) eqn:E2;
    [apply Z.eqb_eq in E2; left; eauto|apply Z.eqb_neq in E2].
  right; split; [tauto|reflexivity].
Qed.

Lemma set_with_expiry key val e op_type (st : State) :
  set key val (Some e) op_type st =
  if remaining_seconds e (net st) <=? 0
  then (set_errmsg [EText "Invalid expire time"] ;; ret false) st
  else bind (set_send_ex key val (remaining_seconds e (net st)) op_type)
            (set_reply op_type) st.
Proof.
  unfold set; unfold bind at 1; cbv beta iota.
  destruct (remaining_seconds e (net st) <=? 0); reflexivity.
Qed.

Lemma set_without_expiry key val op_type (st : State) :
  set key val None op_type st =
  bind (set_send key val op_type) (set_reply op_type) st.
Proof. reflexivity. Qed.

(** Whatever [set] is given, a reply it got went through [set_reply], and
    the operation type was a recognised one. *)
Lemma set_replied key val expire_tm op_type (st : State) b st' r :
  set key val expire_tm op_type st = (b, st') ->
  replied st st' r ->
  recognised op_type /\
  exists st1, set_reply op_type (Some r) st1 = (b, st').
Proof.
  intros Hset Hr.
  assert (Hquiet : forall (m : M bool), quiet m -> m st = (b, st') -> False).
  { intros m Hm Hrun. specialize (Hm st). rewrite Hrun in Hm.
    exact (same_link_not_replied _ _ _ Hm Hr). }
  destruct expire_tm as [e|].
  - rewrite set_with_expiry in Hset.
    destruct (remaining_seconds e (net st) <=? 0).
    + exfalso; eapply Hquiet; [|exact Hset]; auto with link.
    + destruct (set_send_ex_shape key val (remaining_seconds e (net st))
                                  op_type) as [[Hop [cmd E]]|[_ E]];
        rewrite E in Hset.
      * split; [exact Hop|].
        destruct (replied_inv _ _ _ _ _ _ (quiet_set_reply op_type) Hset Hr)
          as (st1 & _ & Htail); eauto.
      * exfalso; eapply Hquiet; [|exact Hset]; auto 6 with link.
  - rewrite set_without_expiry in Hset.
    destruct (set_send_shape key val op_type) as [[Hop [cmd E]]|[_ E]];
      rewrite E in Hset.
    + split; [exact Hop|].
      destruct (replied_inv _ _ _ _ _ _ (quiet_set_reply op_type) Hset Hr)
        as (st1 & _ & Htail); eauto.
    + exfalso; eapply Hquiet; [|exact Hset]; auto 6 with link.
Qed.

(** Case analysis on the tag of a reply, the way the [switch] statements
    and [CHECK_REPLY] compare it. *)
Ltac by_type r :=
  unfold REDIS_REPLY_STRING, REDIS_REPLY_ARRAY, REDIS_REPLY_INTEGER,
    REDIS_REPLY_NIL, REDIS_REPLY_STATUS, REDIS_REPLY_ERROR in *;
  repeat match goal with
    | H : context [type r =? ?k] |- _ =>
        let E := fresh "E" in
        destruct (type r =? k) eqn:E;
        [apply Z.eqb_eq in E | apply Z.eqb_neq in E]
    end.

Ltac by_type_goal r :=
  unfold REDIS_REPLY_STRING, REDIS_REPLY_ARRAY, REDIS_REPLY_INTEGER,
    REDIS_REPLY_NIL, REDIS_REPLY_STATUS, REDIS_REPLY_ERROR in *;
  repeat match goal with
    | |- context [type r =? ?k] =>
        let E := fresh "E" in
        destruct (type r =? k) eqn:E;
        [apply Z.eqb_eq in E | apply Z.eqb_neq in E]
    end.

Ltac returned H :=
  unfold set_errmsg, bind, ret in H; simpl in H;
  inversion H; subst; clear H; simpl.

(** C3.  For every key, value and recognised [SetOpType], [set] classifies
    the reply it received: a status reply gives [true]; a nil reply gives
    [false] with the message of the operation type ("Unknow error" for
    Anyhow, "Key already exist" for IfNotExist, "Key not exist" for
    IfExist); an error reply gives [false] with the reply's text as the
    message; a reply of any other kind gives [false] with the message
    "Unexpected reply type" followed by the tag. *)
Theorem set_classifies_reply key val expire_tm op_type (st : State) b st' r :
  recognised op_type ->
  set key val expire_tm op_type st = (b, st') ->
  replied st st' r ->
  (type r = REDIS_REPLY_STATUS -> b = true) /\
  (type r = REDIS_REPLY_NIL ->
     b = false /\
     (op_type = kSetAnyhow ->
        m_errmsg (self st') = [EText "Unknow error"]) /\
     (op_type = kSetIfNotExist ->
        m_errmsg (self st') = [EText "Key already exist"]) /\
     (op_type = kSetIfExist ->
        m_errmsg (self st') = [EText "Key not exist"])) /\
  (type r = REDIS_REPLY_ERROR ->
     b = false /\ m_errmsg (self st') = [of_char_ptr (str r)]) /\
  (type r <> REDIS_REPLY_STATUS -> type r <> REDIS_REPLY_NIL ->
   type r <> REDIS_REPLY_ERROR ->
     b = false /\
     m_errmsg (self st') = [EText "Unexpected reply type "; ENum (type r)]).
Proof.
  intros _ Hset Hr.
  destruct (set_replied _ _ _ _ _ _ _ _ Hset Hr) as (_ & st1 & Htail).
  unfold set_reply in Htail.
  by_type r; returned Htail;
    repeat split; intros; subst; try reflexivity; try lia; try congruence.
Qed.

(** *** [get] *)

Lemma substring_whole (s : string) : substring 0 (String.length s) s = s.
Proof. induction s as [|c s IH]; simpl; [reflexivity | now rewrite IH]. Qed.

Ltac quiet_tail :=
  let r := fresh "r" in
  intros [r|]; unfold CHECK_REPLY, store_count; simpl;
  repeat match goal with
    | |- context [if ?c then _ else _] => destruct c
    end;
  auto 6 with link.

Lemma get_replied key val key_exists (st : State) out st' r :
  get key val key_exists st = (out, st') ->
  replied st st' r ->
  exists st1,
    (if type r =? REDIS_REPLY_STRING then
       ret (true, (string_of_buf (str r) (len r),
                   option_map (fun _ => true) key_exists))
     else if type r =? REDIS_REPLY_NIL then
       ret (true, (EmptyString, option_map (fun _ => false) key_exists))
     else if type r =? REDIS_REPLY_ERROR then
       set_errmsg [of_char_ptr (str r)] ;; ret (false, (val, key_exists))
     else
       set_errmsg [EText "Unexpected reply type "; ENum (type r)] ;;
       ret (false, (val, key_exists))) st1 = (out, st').
Proof.
  intros Hget Hr; unfold get, exec in Hget.
  eapply replied_inv in Hget; [|quiet_tail|exact Hr].
  destruct Hget as (st1 & _ & Htail); eauto.
Qed.

(** C4.  For every key, [get] on a string reply returns [true] with [val]
    set to exactly the bytes of the reply, all [len] of them, and
    [*key_exists] set to [true]; on a nil reply it returns [true] with
    [val] empty and [*key_exists] set to [false]; on an error reply it
    returns [false] with the reply's text as the message; on a reply of any
    other kind it returns [false] with the message "Unexpected reply type"
    followed by the tag. *)
Theorem get_classifies_reply key val key_exists (st : State) out st' r :
  get key val key_exists st = (out, st') ->
  replied st st' r ->
  (type r = REDIS_REPLY_STRING ->
     forall bytes, str r = Some bytes ->
       out = (true, (bytes, option_map (fun _ => true) key_exists))) /\
  (type r = REDIS_REPLY_NIL ->
     out = (true, (EmptyString, option_map (fun _ => false) key_exists))) /\
  (type r = REDIS_REPLY_ERROR ->
     fst out = false /\ m_errmsg (self st') = [of_char_ptr (str r)]) /\
  (type r <> REDIS_REPLY_STRING -> type r <> REDIS_REPLY_NIL ->
   type r <> REDIS_REPLY_ERROR ->
     fst out = false /\
     m_errmsg (self st') = [EText "Unexpected reply type "; ENum (type r)]).
Proof.
  intros Hget Hr.
  destruct (get_replied _ _ _ _ _ _ _ Hget Hr) as (st1 & Htail).
  by_type r; returned Htail;
    repeat split; intros; subst; try reflexivity; try lia; try congruence.
  unfold string_of_buf, len.
  match goal with H : str r = Some _ |- _ => rewrite H end.
  now rewrite substring_whole.
Qed.

(** *** [expire] and [expire_at] *)

Lemma replied_intro cmd (st : State) r st1 st' :
  run_command cmd st = (Some r, st1) ->
  trace st' = trace st1 ->
  replied st st' r.
Proof.
  intros E Ht.
  destruct (run_command_attempt _ _ _ _ E) as (new & Hnew & Hat & _).
  rewrite <- Ht in Hnew.
  inversion Hat; subst; simpl in Hnew.
  - exists cmd, []; exact Hnew.
  - exists cmd, [EvConnect (m_ip (self st)) (m_port (self st)) (Some c)];
      exact Hnew.
Qed.

Lemma expect_integer_verdict cmd (st : State) b st' :
  bind (run_command cmd)
       (fun reply => CHECK_REPLY reply REDIS_REPLY_INTEGER false
                                 expire_result) st = (b, st') ->
  expire_verdict st st' b.
Proof.
  intros Hrun.
  assert (Hq : forall reply,
             quiet (Net:=Net) (CHECK_REPLY reply REDIS_REPLY_INTEGER false
                                           expire_result))
    by (intro; auto with link).
  assert (Hcase : forall r, replied st st' r ->
            exists st1,
              CHECK_REPLY (Some r) REDIS_REPLY_INTEGER false expire_result st1
              = (b, st')).
  { intros r Hr.
    destruct (replied_inv _ _ _ _ _ _ Hq Hrun Hr) as (st1 & _ & Htail); eauto. }
  split; [split|].
  - intros Hb; subst b.
    unfold bind in Hrun.
    destruct (run_command cmd st) as [[r|] st1] eqn:E.
    + assert (Hr : replied st st' r).
      { eapply replied_intro; [exact E|].
        specialize (Hq (Some r) st1); rewrite Hrun in Hq; apply Hq. }
      exists r; split; [exact Hr|].
      destruct (Hcase r Hr) as (st2 & Htail).
      unfold CHECK_REPLY, expire_result in Htail.
      by_type r; try (returned Htail; discriminate).
      split; [assumption|].
      destruct (integer r =? 1) eqn:E1;
        [now apply Z.eqb_eq in E1 | returned Htail].
    + simpl in Hrun; inversion Hrun.
  - intros (r & Hr & Hty & Hone).
    destruct (Hcase r Hr) as (st1 & Htail).
    unfold CHECK_REPLY, expire_result in Htail.
    rewrite Hty, Hone in Htail; simpl in Htail.
    inversion Htail; reflexivity.
  - intros r Hr.
    destruct (Hcase r Hr) as (st1 & Htail).
    unfold CHECK_REPLY, expire_result in Htail.
    by_type r; repeat split; intros; try lia; try congruence;
      try (returned Htail; reflexivity).
    all: match goal with H : integer _ = 0 |- _ => rewrite H in Htail end;
      returned Htail; reflexivity.
Qed.

(** *** A call and the answer of the transport *)

Lemma run_command_answers cmd (st : State) r :
  answers st cmd r -> fst (run_command cmd st) = Some r.
Proof.
  destruct st as [[ip_port ip port ctx msg] w t].
  unfold answers; unfold_link; simpl.
  destruct ctx as [c|]; simpl.
  - destruct (redisCommand c cmd w) as [[[r0|] c'] w']; simpl;
      intros H; congruence.
  - destruct (redisConnectWithTimeout ip port 2 w) as [[c|] w0]; simpl;
      [|contradiction].
    intros [Herr Hans]; apply Z.eqb_eq in Herr; rewrite Herr; simpl.
    destruct (redisCommand c cmd w0) as [[[r0|] c'] w']; simpl in *;
      congruence.
Qed.

Lemma call_lives_on_reply {A} cmd (tail : option redisReply -> M A)
    (ok : A -> bool) :
  (forall reply, quiet (tail reply)) ->
  (forall st0, ok (fst (tail None st0)) = false) ->
  lives_on_reply (bind (run_command cmd) tail) cmd ok.
Proof.
  intros Hq Hnone st out st' Hrun; unfold bind in Hrun.
  destruct (run_command cmd st) as [reply st1] eqn:E.
  assert (Ht : trace st' = trace st1).
  { specialize (Hq reply st1); rewrite Hrun in Hq; apply Hq. }
  split.
  - intros r Hans.
    pose proof (run_command_answers _ _ _ Hans) as Hfst.
    rewrite E in Hfst; simpl in Hfst; subst reply.
    exact (replied_intro _ _ _ _ _ E Ht).
  - intros Hok; destruct reply as [r|].
    + exists r; exact (replied_intro _ _ _ _ _ E Ht).
    + specialize (Hnone st1); rewrite Hrun in Hnone; simpl in Hnone.
      congruence.
Qed.

Ltac lives :=
  unfold select_db, expire, expire_at, ttl, get, sadd, scard, sdiff,
    sdiff_store, sinter, sinter_store, sismember, hget, hset,
    exec, execv, execm;
  apply call_lives_on_reply; [quiet_tail | intros ?; reflexivity].

Lemma expire_lives_on_reply key seconds :
  lives_on_reply (Net:=Net) (expire key seconds)
    (Formatted "EXPIRE %b %u" [ArgBytes key; ArgNum seconds]) (fun b => b).
Proof. lives. Qed.

Lemma expire_at_lives_on_reply key expired_tm :
  lives_on_reply (Net:=Net) (expire_at key expired_tm)
    (Formatted "EXPIREAT %b %lld" [ArgBytes key; ArgNum expired_tm])
    (fun b => b).
Proof. lives. Qed.

(** C7.  For every key, [expire] and [expire_at] send their command
    ([EXPIRE key seconds], [EXPIREAT key time]), get the answer the
    transport gives to it, and return [true] exactly when that reply is an
    integer equal to 1; an integer reply of 0 gives [false] with the
    message "Key does not exist or the timeout could not be set"; an error
    reply gives [false] with its text; any other reply that is not an
    integer gives [false] with "Unexpected reply type"; without a reply the
    call returns [false]. *)
Theorem expire_true_iff_integer_one :
  (forall key seconds,
      lives_on_reply (Net:=Net) (expire key seconds)
        (Formatted "EXPIRE %b %u" [ArgBytes key; ArgNum seconds])
        (fun b => b) /\
      forall (st : State) b st',
        expire key seconds st = (b, st') -> expire_verdict st st' b) /\
  (forall key expired_tm,
      lives_on_reply (Net:=Net) (expire_at key expired_tm)
        (Formatted "EXPIREAT %b %lld" [ArgBytes key; ArgNum expired_tm])
        (fun b => b) /\
      forall (st : State) b st',
        expire_at key expired_tm st = (b, st') -> expire_verdict st st' b).
Proof.
  split; intros; (split;
    [first [apply expire_lives_on_reply | apply expire_at_lives_on_reply]|]);
    intros; eapply expect_integer_verdict;
    match goal with H : _ = (_, _) |- _ => exact H end.
Qed.

(** *** Every method makes one attempt *)

Lemma one_attempt_call cmd (tail : option redisReply -> M bool) :
  (forall reply, quiet (tail reply)) ->
  (forall st0, fst (tail None st0) = false) ->
  one_attempt (bind (run_command cmd) tail).
Proof. intros Hq Hnone st; right; exists cmd, tail; auto. Qed.

Lemma one_attempt_verdict {A} cmd (tail : option redisReply -> M (bool * A)) :
  (forall reply, quiet (tail reply)) ->
  (forall st0, fst (fst (tail None st0)) = false) ->
  one_attempt (verdict (bind (run_command cmd) tail)).
Proof.
  intros Hq Hnone st; right.
  exists cmd, (fun reply => verdict (tail reply)); split; [|split].
  - intros reply; unfold verdict; auto with link.
  - intros st0; unfold verdict, bind, ret.
    specialize (Hnone st0); destruct (tail None st0) as [[b a] st1]; exact Hnone.
  - unfold verdict, bind.
    destruct (run_command cmd st) as [reply st1]; reflexivity.
Qed.

Lemma one_attempt_set key val expire_tm op_type :
  one_attempt (set key val expire_tm op_type).
Proof.
  intros st.
  destruct expire_tm as [e|].
  - pose proof (set_with_expiry key val e op_type st) as E.
    destruct (remaining_seconds e (net st) <=? 0).
    + left; rewrite E; split; [|reflexivity].
      apply (quiet_bind (set_errmsg [EText "Invalid expire time"])
                        (fun _ => ret false)); auto with link.
    + destruct (set_send_ex_shape key val (remaining_seconds e (net st))
                                  op_type) as [[_ [cmd E0]]|[_ E0]];
        rewrite E0 in E.
      * right; exists cmd, (set_reply op_type); split; [|split];
          [intro; auto with link | reflexivity | exact E].
      * left; rewrite E; split; [|reflexivity].
        apply (quiet_bind _ (set_reply op_type)); auto with link.
  - pose proof (set_without_expiry key val op_type st) as E.
    destruct (set_send_shape key val op_type) as [[_ [cmd E0]]|[_ E0]];
      rewrite E0 in E.
    + right; exists cmd, (set_reply op_type); split; [|split];
        [intro; auto with link | reflexivity | exact E].
    + left; rewrite E; split; [|reflexivity].
      apply (quiet_bind _ (set_reply op_type)); auto with link.
Qed.

Lemma perform_one_attempt (op : operation) : one_attempt (perform op).
Proof.
  destruct op; simpl;
    try apply one_attempt_set;
    unfold select_db, expire, expire_at, ttl, get, sadd, scard, sdiff,
      sdiff_store, sinter, sinter_store, sismember, hget, hset,
      exec, execv, execm;
    first [ apply one_attempt_call | apply one_attempt_verdict ];
    try (intros ?; reflexivity);
    quiet_tail.
Qed.

(** What a call does to the link, read off its shape. *)
Lemma one_attempt_outcome (m : M bool) :
  one_attempt m ->
  forall st b st', m st = (b, st') ->
  exists new,
    trace st' = new ++ trace st /\
    m_ip (self st') = m_ip (self st) /\
    m_port (self st') = m_port (self st) /\
    ((new = [] /\ b = false /\ m_context (self st') = m_context (self st)) \/
     (exists cmd reply,
         attempt (m_ip (self st)) (m_port (self st)) cmd
                 (m_context (self st)) new reply /\
         match reply with
         | Some _ => m_context (self st') <> None
         | None => b = false /\ m_context (self st') = None
         end)).
Proof.
  intros Hm st b st' Hrun.
  destruct (Hm st) as [[Hsame Hfalse]|(cmd & tail & Hq & Hnone & E)].
  - rewrite Hrun in Hsame, Hfalse; simpl in *.
    destruct Hsame as (_ & Ht & Hc & Hip & Hport & _).
    exists []; repeat split; auto.
  - rewrite Hrun in E; symmetry in E; unfold bind in E.
    destruct (run_command cmd st) as [reply st1] eqn:Erun.
    destruct (run_command_attempt _ _ _ _ Erun)
      as (new & Hnew & Hat & Hip & Hport & _ & Hctx).
    pose proof (Hq reply st1) as Hsame; rewrite E in Hsame; simpl in Hsame.
    destruct Hsame as (_ & Ht & Hc & Hip' & Hport' & _).
    exists new; repeat split; try congruence.
    right; exists cmd, reply; split; [exact Hat|].
    destruct reply as [r|].
    + rewrite Hc; apply Hctx.
    + split; [|congruence].
      specialize (Hnone st1); rewrite E in Hnone; exact Hnone.
Qed.

Lemma reconnects_first (op : operation) (st : State) b st' :
  m_context (self st) = None ->
  perform op st = (b, st') ->
  trace st' = trace st \/
  exists later res,
    trace st' =
    later ++ EvConnect (m_ip (self st)) (m_port (self st)) res :: trace st.
Proof.
  intros Hnone Hrun.
  destruct (one_attempt_outcome _ (perform_one_attempt op) _ _ _ Hrun)
    as (new & Hnew & _ & _ & [(Hnil & _)|(cmd & reply & Hat & _)]).
  - left; subst new; exact Hnew.
  - right; rewrite Hnone in Hat; rewrite Hnew.
    inversion Hat; subst.
    + exists [], None; reflexivity.
    + exists [EvFree], (Some c); reflexivity.
    + exists [EvCommand cmd (Some r)], (Some c); reflexivity.
    + exists [EvFree; EvCommand cmd None], (Some c); reflexivity.
Qed.

Lemma perform_keeps_invariant (op : operation) (st : State) b st' :
  perform op st = (b, st') ->
  handle_invariant st -> handle_invariant st'.
Proof.
  intros Hrun Hinv.
  destruct (one_attempt_outcome _ (perform_one_attempt op) _ _ _ Hrun)
    as (new & Hnew & _ & _ &
        [(Hnil & _ & Hctx)|(cmd & reply & Hat & Hafter)]);
    unfold handle_invariant in *; rewrite Hnew.
  - subst new; rewrite Hctx; exact Hinv.
  - intros Hheld.
    inversion Hat; subst; simpl;
      try (destruct Hafter as [_ Hgone]; congruence).
    + apply Hinv; congruence.
    + now apply Z.eqb_eq.
Qed.

(** *** A call that goes to the transport *)

Lemma reaches_call cmd (tail : option redisReply -> M bool) (st : State) :
  (forall reply, quiet (tail reply)) ->
  (forall st0, fst (tail None st0) = false) ->
  exists cmd' (tail' : option redisReply -> M bool),
    (forall reply, quiet (tail' reply)) /\
    (forall st0, fst (tail' None st0) = false) /\
    bind (run_command cmd) tail st = bind (run_command cmd') tail' st.
Proof. intros Hq Hnone; exists cmd, tail; auto. Qed.

Lemma reaches_verdict {A} cmd (tail : option redisReply -> M (bool * A))
    (st : State) :
  (forall reply, quiet (tail reply)) ->
  (forall st0, fst (fst (tail None st0)) = false) ->
  exists cmd' (tail' : option redisReply -> M bool),
    (forall reply, quiet (tail' reply)) /\
    (forall st0, fst (tail' None st0) = false) /\
    verdict (bind (run_command cmd) tail) st = bind (run_command cmd') tail' st.
Proof.
  intros Hq Hnone.
  exists cmd, (fun reply => verdict (tail reply)); split; [|split].
  - intros reply; unfold verdict; auto with link.
  - intros st0; unfold verdict, bind, ret.
    specialize (Hnone st0); destruct (tail None st0) as [[b a] st1]; exact Hnone.
  - unfold verdict, bind.
    destruct (run_command cmd st) as [reply st1]; reflexivity.
Qed.

(** Unless it gives up early, a call is one run of an executor followed by
    the interpretation of the reply. *)
Lemma perform_reaches_transport (op : operation) (st : State) :
  ~ gives_up_early op st ->
  exists cmd (tail : option redisReply -> M bool),
    (forall reply, quiet (tail reply)) /\
    (forall st0, fst (tail None st0) = false) /\
    perform op st = bind (run_command cmd) tail st.
Proof.
  destruct op; simpl; intros Hgo;
    try (unfold select_db, expire, expire_at, ttl, get, sadd, scard, sdiff,
           sdiff_store, sinter, sinter_store, sismember, hget, hset,
           exec, execv, execm;
         first [ apply reaches_call | apply reaches_verdict ];
         try (intros ?; reflexivity);
         quiet_tail).
  (* [set] *)
  destruct expire_tm as [e|].
  - rewrite set_with_expiry.
    destruct (remaining_seconds e (net st) <=? 0) eqn:Ettl.
    + exfalso; apply Hgo; left; exists e; split; [reflexivity|].
      now apply Z.leb_le.
    + destruct (set_send_ex_shape key val (remaining_seconds e (net st))
                                  op_type) as [[_ [cmd E]]|[Hno _]];
        [|exfalso; apply Hgo; right; exact Hno].
      rewrite E; exists cmd, (set_reply op_type); split; [|split];
        [intro; auto with link | reflexivity | reflexivity].
  - rewrite set_without_expiry.
    destruct (set_send_shape key val op_type) as [[_ [cmd E]]|[Hno _]];
      [|exfalso; apply Hgo; right; exact Hno].
    rewrite E; exists cmd, (set_reply op_type); split; [|split];
      [intro; auto with link | reflexivity | reflexivity].
Qed.

Lemma run_command_on_dead_handle cmd (st : State) c reply st1 :
  m_context (self st) = Some c ->
  fst (fst (redisCommand c cmd (net st))) = None ->
  run_command cmd st = (reply, st1) ->
  trace st1 = EvFree :: EvCommand cmd None :: trace st.
Proof.
  destruct st as [[ip_port ip port ctx msg] w t]; simpl.
  intros -> Hdead; unfold_link; simpl.
  destruct (redisCommand c cmd w) as [[[r|] c'] w']; simpl in *;
    [discriminate|].
  intros H; inversion H; reflexivity.
Qed.

Lemma run_command_connects_first cmd (st : State) reply st1 :
  m_context (self st) = None ->
  run_command cmd st = (reply, st1) ->
  exists later,
    trace st1 =
    (later ++ [EvConnect (m_ip (self st)) (m_port (self st))
                         (connect_answer st)]) ++ trace st.
Proof.
  destruct st as [[ip_port ip port ctx msg] w t]; simpl.
  intros ->; unfold connect_answer; unfold_link; simpl.
  destruct (redisConnectWithTimeout ip port 2 w) as [[c|] w0]; simpl.
  - destruct (err c =? 0); simpl.
    + destruct (redisCommand c cmd w0) as [[[r|] c'] w']; simpl;
        intros H; inversion H; simpl.
      * exists [EvCommand cmd (Some r)]; reflexivity.
      * exists [EvFree; EvCommand cmd None]; reflexivity.
    + intros H; inversion H; simpl; exists [EvFree]; reflexivity.
  - intros H; inversion H; simpl; exists []; reflexivity.
Qed.

(** How a call that goes to the transport shows in the trace. *)
Lemma reaching_call_in_trace (op : operation) (st : State) b st' new :
  perform op st = (b, st') ->
  trace st' = new ++ trace st ->
  ~ gives_up_early op st ->
  (forall c, m_context (self st) = Some c ->
             (forall cmd, fst (fst (redisCommand c cmd (net st))) = None) ->
             exists cmd, new = [EvFree; EvCommand cmd None]) /\
  (m_context (self st) = None ->
   exists later,
     new = later ++ [EvConnect (m_ip (self st)) (m_port (self st))
                               (connect_answer st)]).
Proof.
  intros Hrun Hnew Hgo.
  destruct (perform_reaches_transport op st Hgo)
    as (cmd & tail & Hq & _ & E).
  rewrite Hrun in E; symmetry in E; unfold bind in E.
  destruct (run_command cmd st) as [reply st1] eqn:Erun.
  assert (Ht : trace st' = trace st1).
  { specialize (Hq reply st1); rewrite E in Hq; apply Hq. }
  split.
  - intros c Hheld Hdead.
    pose proof (run_command_on_dead_handle _ _ _ _ _ Hheld (Hdead cmd) Erun)
      as Hdown.
    rewrite <- Ht, Hnew in Hdown.
    change (EvFree :: EvCommand cmd None :: trace st)
      with ([EvFree; EvCommand cmd None] ++ trace st) in Hdown.
    apply app_inv_tail in Hdown; eauto.
  - intros Hnone.
    destruct (run_command_connects_first _ _ _ _ Hnone Erun) as (later & Hup).
    rewrite <- Ht, Hnew in Hup.
    apply app_inv_tail in Hup; eauto.
Qed.

Lemma failed_connect_counts later ip port res :
  failed (EvConnect ip port res) = true ->
  existsb failed (later ++ [EvConnect ip port res]) = true.
Proof.
  intros H; rewrite existsb_app; apply orb_true_iff; right.
  cbn [existsb]; rewrite H; reflexivity.
Qed.

(** C2.  For every operation: if a transport call of the operation fails
    (a connect that fails, or a command with a null reply), the operation
    returns [false] and the handle has been released (the context, when
    there is one, is freed last) and cleared, so the next operation that
    goes to the transport starts by asking for a new connection; and the
    state invariant, that a held handle means the last connect succeeded
    and no transport call has failed since, is kept by every operation.
    This is not idle: unless the call gives up before the transport (a
    [set] with an elapsed expiry or an unknown operation type), a handle
    whose server no longer answers does make the call fail, a client
    without a handle does start by connecting, with the answer the
    transport gives, and a connect that fails does make the call fail. *)
Theorem transport_failure_releases_handle (op : operation) (st : State) b st' :
  perform op st = (b, st') ->
  exists new,
    trace st' = new ++ trace st /\
    (handle_invariant st -> handle_invariant st') /\
    (existsb failed new = true ->
       b = false /\ m_context (self st') = None /\
       (new = [EvConnect (m_ip (self st)) (m_port (self st)) None] \/
        exists earlier, new = EvFree :: earlier) /\
       forall op2 b2 st2,
         perform op2 st' = (b2, st2) ->
         ~ gives_up_early op2 st' ->
         exists later,
           trace st2 =
           later ++ EvConnect (m_ip (self st')) (m_port (self st'))
                              (connect_answer st')
                 :: trace st') /\
    (~ gives_up_early op st ->
       (forall c,
           m_context (self st) = Some c ->
           (forall cmd, fst (fst (redisCommand c cmd (net st))) = None) ->
           existsb failed new = true) /\
       (m_context (self st) = None ->
        exists later,
          new = later ++ [EvConnect (m_ip (self st)) (m_port (self st))
                                    (connect_answer st)]) /\
       (m_context (self st) = None ->
        failed (EvConnect (m_ip (self st)) (m_port (self st))
                          (connect_answer st)) = true ->
        existsb failed new = true)).
Proof.
  intros Hrun.
  destruct (one_attempt_outcome _ (perform_one_attempt op) _ _ _ Hrun)
    as (new & Hnew & Hip & Hport & Hcase).
  exists new; split; [exact Hnew|]; split;
    [exact (perform_keeps_invariant _ _ _ _ Hrun)|]; split.
  - intros Hfail.
    destruct Hcase as [(Hnil & Hb & Hctx)|(cmd & reply & Hat & Hafter)];
      [subst new; discriminate|].
    assert (Hlost : b = false /\ m_context (self st') = None /\
                    (new = [EvConnect (m_ip (self st)) (m_port (self st)) None]
                     \/ exists earlier, new = EvFree :: earlier)).
    { inversion Hat; subst; simpl in Hfail; try discriminate;
        try (destruct Hafter as [Hb Hgone];
             split; [exact Hb|]; split; [exact Hgone|]; eauto; fail).
      match goal with H : err _ = 0 |- _ =>
        apply Z.eqb_eq in H; rewrite H in Hfail end.
      discriminate. }
    destruct Hlost as (Hb & Hgone & Hfreed).
    split; [exact Hb|]; split; [exact Hgone|]; split; [exact Hfreed|].
    intros op2 b2 st2 Hnext Hgo2.
    destruct (one_attempt_outcome _ (perform_one_attempt op2) _ _ _ Hnext)
      as (new2 & Hnew2 & _).
    destruct (reaching_call_in_trace _ _ _ _ _ Hnext Hnew2 Hgo2)
      as (_ & Hfirst).
    destruct (Hfirst Hgone) as (later & Hlater).
    exists later; rewrite Hnew2, Hlater, <- app_assoc; reflexivity.
  - intros Hgo.
    destruct (reaching_call_in_trace _ _ _ _ _ Hrun Hnew Hgo)
      as (Hdead & Hfirst).
    split; [|split].
    + intros c Hheld Hsilent.
      destruct (Hdead c Hheld Hsilent) as (cmd & ->); reflexivity.
    + exact Hfirst.
    + intros Hnone Hfail.
      destruct (Hfirst Hnone) as (later & ->).
      now apply failed_connect_counts.
Qed.

(** *** Construction *)

Lemma kSetOpErrMsg_size : List.length kSetOpErrMsg = kSetOpCnt.
Proof. reflexivity. Qed.

(** What [alloc_context] does to a client that has not talked yet. *)
Lemma alloc_context_fresh ip_port ip port world :
  forall st : State,
    st = snd (alloc_context
                (mkState (mkClient ip_port ip port None []) world [])) ->
    m_ip_port (self st) = ip_port /\
    m_ip (self st) = ip /\
    m_port (self st) = port /\
    connect_attempts (trace st) = 1%nat /\
    (exists later res,
        trace st = later ++ [EvConnect ip port res] /\
        m_context (self st) =
        match res with
        | Some c => if err c =? 0 then Some c else None
        | None => None
        end) /\
    handle_invariant st.
Proof.
  intros st ->; unfold handle_invariant; unfold_link; simpl.
  destruct (redisConnectWithTimeout ip port 2 world) as [[c|] w0]; simpl.
  - destruct (err c =? 0) eqn:Ec; simpl.
    + do 4 (split; [reflexivity|]); split.
      * exists [], (Some c); rewrite Ec; split; reflexivity.
      * intros _; exact Ec.
    + do 4 (split; [reflexivity|]); split.
      * exists [EvFree], (Some c); rewrite Ec; split; reflexivity.
      * intros Hheld; congruence.
  - do 4 (split; [reflexivity|]); split.
    + exists [], None; split; reflexivity.
    + intros Hheld; congruence.
Qed.

(** A constructor that returns has found a colon, taken what precedes the
    last one as the host and settled on a port between 1 and 65535. *)
Lemma constructor_returns (atoi : string -> Z) ip_port world (st : State) :
  RedisClient_new atoi ip_port world = inr st ->
  exists pos port,
    find_last_of ip_port ":" = Some pos /\
    0 < port <= 65535 /\
    (port = 6379 \/ port = atoi (substr ip_port (S pos))) /\
    st = snd (alloc_context
                (mkState (mkClient ip_port (substring 0 pos ip_port) port
                                   None []) world [])).
Proof.
  unfold RedisClient_new.
  destruct (find_last_of ip_port ":") as [pos|]; [|discriminate].
  destruct (S pos <? String.length ip_port)%nat.
  - destruct ((atoi (substr ip_port (S pos)) <=? 0)
              || (65535 <? atoi (substr ip_port (S pos)))) eqn:Erange;
      [discriminate|].
    apply orb_false_iff in Erange; destruct Erange as [Hlo Hhi].
    apply Z.leb_gt in Hlo; apply Z.ltb_ge in Hhi.
    intros H; inversion H; subst.
    exists pos, (atoi (substr ip_port (S pos))); repeat split; auto; lia.
  - intros H; inversion H; subst.
    exists pos, 6379; repeat split; auto; lia.
Qed.

(** C1, as the code has it.  Constructing a client from an address string
    parses the address and then makes one connection attempt: whenever the
    constructor returns, the host is what precedes the last colon, the port
    lies between 1 and 65535, and the transport's connect has been called
    exactly once, on that host and port, before anything else; the handle
    is held if that attempt succeeded and empty otherwise. *)
Theorem constructor_connects_once (atoi : string -> Z) ip_port world
    (st : State) :
  RedisClient_new atoi ip_port world = inr st ->
  m_ip_port (self st) = ip_port /\
  (exists pos, find_last_of ip_port ":" = Some pos /\
               m_ip (self st) = substring 0 pos ip_port) /\
  0 < m_port (self st) <= 65535 /\
  connect_attempts (trace st) = 1%nat /\
  (exists later res,
      trace st =
      later ++ [EvConnect (m_ip (self st)) (m_port (self st)) res] /\
      m_context (self st) =
      match res with
      | Some c => if err c =? 0 then Some c else None
      | None => None
      end).
Proof.
  intros Hnew.
  destruct (constructor_returns _ _ _ _ Hnew)
    as (pos & port & Hpos & Hport & _ & Hst).
  destruct (alloc_context_fresh _ _ _ _ _ Hst)
    as (Haddr & Hip & Hp & Hone & Htrace & _).
  rewrite Hip, Hp.
  split; [exact Haddr|]; split; [eauto|]; split; [exact Hport|];
    split; [exact Hone | exact Htrace].
Qed.

(** The handle invariant holds in every state a client can reach. *)
Lemma reachable_handle_invariant (atoi : string -> Z) (st : State) :
  reachable atoi st -> handle_invariant st.
Proof.
  induction 1 as [ip_port world st Hnew | op st b st' _ IH Hrun].
  - destruct (constructor_returns _ _ _ _ Hnew) as (pos & port & _ & _ & _ & Hst).
    apply (alloc_context_fresh _ _ _ _ _ Hst).
  - exact (perform_keeps_invariant _ _ _ _ Hrun IH).
Qed.

(** *** Validation in [set], and its absence in [expire] *)

(** C6, as the code has it.  For every [ExpirationTime] whose
    [remaining_seconds()] is not positive, a [set] call given it fails
    validation: it returns [false] with "Invalid expire time" and no
    transport call is made.  [expire] takes a plain number of seconds, not
    an [ExpirationTime], and validates nothing: every call of it, whatever
    the number, goes to the transport, as the [EXPIRE] command with that
    number when a handle is held. *)
Theorem elapsed_expiry_rejected_by_set_only :
  (forall key val e op_type (st : State) b st',
      remaining_seconds e (net st) <= 0 ->
      set key val (Some e) op_type st = (b, st') ->
      b = false /\ same_link st st' /\
      m_errmsg (self st') = [EText "Invalid expire time"]) /\
  (forall key seconds (st : State) b st',
      expire key seconds st = (b, st') ->
      exists later first,
        trace st' = later ++ first :: trace st /\
        match m_context (self st) with
        | Some _ =>
            exists res,
              first = EvCommand (Formatted "EXPIRE %b %u"
                                   [ArgBytes key; ArgNum seconds]) res
        | None =>
            exists res,
              first = EvConnect (m_ip (self st)) (m_port (self st)) res
        end).
Proof.
  split.
  - intros key val e op_type st b st' Hle Hset.
    rewrite set_with_expiry in Hset.
    apply Z.leb_le in Hle; rewrite Hle in Hset.
    returned Hset; repeat split.
  - intros key seconds st b st' Hrun.
    unfold expire, exec, bind in Hrun.
    destruct (run_command _ st) as [reply st1] eqn:E.
    destruct (run_command_attempt _ _ _ _ E) as (new & Hnew & Hat & _).
    assert (Ht : trace st' = trace st1).
    { assert (Hq : quiet (Net:=Net)
                     (CHECK_REPLY reply REDIS_REPLY_INTEGER false
                                  expire_result)) by auto with link.
      specialize (Hq st1); rewrite Hrun in Hq; apply Hq. }
    rewrite Ht, Hnew.
    inversion Hat; subst.
    + exists [], (EvCommand (Formatted "EXPIRE %b %u"
                               [ArgBytes key; ArgNum seconds]) (Some r)).
      split; eauto.
    + exists [EvFree], (EvCommand (Formatted "EXPIRE %b %u"
                                     [ArgBytes key; ArgNum seconds]) None).
      split; eauto.
    + exists [], (EvConnect (m_ip (self st)) (m_port (self st)) None).
      split; eauto.
    + exists [EvFree],
        (EvConnect (m_ip (self st)) (m_port (self st)) (Some c)).
      split; eauto.
    + exists [EvCommand (Formatted "EXPIRE %b %u"
                           [ArgBytes key; ArgNum seconds]) (Some r)],
        (EvConnect (m_ip (self st)) (m_port (self st)) (Some c)).
      split; eauto.
    + exists [EvFree; EvCommand (Formatted "EXPIRE %b %u"
                                   [ArgBytes key; ArgNum seconds]) None],
        (EvConnect (m_ip (self st)) (m_port (self st)) (Some c)).
      split; eauto.
Qed.

(** C8, as the code has it.  For every [set] call whose [op_type] is not a
    recognised one, the call returns [false] and nothing is sent to the
    transport, no variant being chosen by default.  The message recorded is
    "Unsupported op_type" followed by the value when no expiry is given or
    its remaining time is positive; when the remaining time is not positive
    the expiry is rejected first and the message is "Invalid expire
    time". *)
Theorem unsupported_op_type_sends_nothing key val expire_tm op_type
    (st : State) b st' :
  ~ recognised op_type ->
  set key val expire_tm op_type st = (b, st') ->
  b = false /\ same_link st st' /\
  m_errmsg (self st') =
  match expire_tm with
  | Some e =>
      if remaining_seconds e (net st) <=? 0
      then [EText "Invalid expire time"]
      else [EText "Unsupported op_type "; ENum op_type]
  | None => [EText "Unsupported op_type "; ENum op_type]
  end.
Proof.
  intros Hop Hset.
  destruct expire_tm as [e|].
  - rewrite set_with_expiry in Hset.
    destruct (remaining_seconds e (net st) <=? 0).
    + returned Hset; repeat split.
    + destruct (set_send_ex_shape key val (remaining_seconds e (net st))
                                  op_type) as [[Hyes _]|[_ E]];
        [contradiction|].
      rewrite E in Hset; returned Hset; repeat split.
  - rewrite set_without_expiry in Hset.
    destruct (set_send_shape key val op_type) as [[Hyes _]|[_ E]];
      [contradiction|].
    rewrite E in Hset; returned Hset; repeat split.
Qed.

(** *** [hget] *)

Lemma c_string_cut head rest :
  nul_free head = true ->
  c_string (head ++ String Ascii.zero rest)%string = head.
Proof.
  induction head as [|c head IH]; simpl; intros H.
  - reflexivity.
  - apply andb_true_iff in H; destruct H as [Hc Hrest].
    apply negb_true_iff in Hc; rewrite Hc, IH; auto.
Qed.

(** When the loop runs to its end, every entry has been given the C string
    of the element at its position, or the empty string for a nil
    element. *)
Lemma hget_loop_true reply :
  forall its n (st : State) out st',
    hget_loop reply its n st = ((true, out), st') ->
    forall i field old,
      nth_error its i = Some (field, old) ->
      exists r,
        nth_error (element reply) (n + i) = Some r /\
        ((type r = REDIS_REPLY_STRING /\
          nth_error out i = Some (field, string_of_cstr (str r))) \/
         (type r = REDIS_REPLY_NIL /\
          nth_error out i = Some (field, EmptyString))).
Proof.
  induction its as [|[f0 v0] later IH]; intros n st out st' Hloop i field old Hi.
  - destruct i; discriminate.
  - simpl in Hloop.
    destruct (nth_error (element reply) n) as [r|] eqn:En;
      [|returned Hloop].
    unfold bind in Hloop.
    destruct (hget_loop reply later (S n) st) as [[b1 out1] st1] eqn:Erest.
    by_type r; try (returned Hloop; fail).
    + rewrite Erest in Hloop; unfold ret in Hloop; simpl in Hloop;
        inversion Hloop; subst.
      destruct i as [|i].
      * simpl in Hi; inversion Hi; subst.
        exists r; rewrite Nat.add_0_r; split; [exact En|left]; split; auto.
      * simpl in Hi.
        destruct (IH _ _ _ _ Erest _ _ _ Hi) as (r' & Hr' & Hcase).
        exists r'; rewrite Nat.add_succ_r; split; [exact Hr'|exact Hcase].
    + rewrite Erest in Hloop; unfold ret in Hloop; simpl in Hloop;
        inversion Hloop; subst.
      destruct i as [|i].
      * simpl in Hi; inversion Hi; subst.
        exists r; rewrite Nat.add_0_r; split; [exact En|right]; split; auto.
      * simpl in Hi.
        destruct (IH _ _ _ _ Erest _ _ _ Hi) as (r' & Hr' & Hcase).
        exists r'; rewrite Nat.add_succ_r; split; [exact Hr'|exact Hcase].
Qed.

Lemma hget_replied key fields (st : State) out st' reply :
  hget key fields st = (out, st') ->
  replied st st' reply ->
  exists st1,
    CHECK_REPLY (Some reply) REDIS_REPLY_ARRAY (false, fields)
      (fun r =>
         if negb (elements r =? List.length fields)%nat then
           set_errmsg [EText "Invalid number of elements returned! Expected ";
                       ENum (Z.of_nat (List.length fields));
                       EText ", Returned "; ENum (Z.of_nat (elements r))] ;;
           ret (false, fields)
         else hget_loop r fields 0) st1 = (out, st').
Proof.
  intros Hrun Hr; unfold hget, execm in Hrun.
  eapply replied_inv in Hrun; [|quiet_tail|exact Hr].
  destruct Hrun as (st1 & _ & Htail); eauto.
Qed.

(** C9.  For every string element of an HMGET reply whose payload holds a
    NUL byte, [hget] gives the field at that position only the bytes before
    the first NUL: it copies through the C string pointer and ignores the
    element's length.  [get], given the same reply, hands back the whole
    payload. *)
Theorem hget_cuts_value_at_nul key fields (st : State) out st' reply
    i field old r head rest :
  hget key fields st = ((true, out), st') ->
  replied st st' reply ->
  nth_error fields i = Some (field, old) ->
  nth_error (element reply) i = Some r ->
  type r = REDIS_REPLY_STRING ->
  str r = Some (head ++ String Ascii.zero rest)%string ->
  nul_free head = true ->
  nth_error out i = Some (field, head) /\
  (forall k v ke (st0 : State) out0 st0',
      get k v ke st0 = (out0, st0') ->
      replied st0 st0' r ->
      fst (snd out0) = (head ++ String Ascii.zero rest)%string).
Proof.
  intros Hrun Hr Hi Hel Hty Hstr Hhead; split.
  - destruct (hget_replied _ _ _ _ _ _ Hrun Hr) as (st1 & Htail).
    unfold CHECK_REPLY in Htail.
    by_type reply; try (returned Htail; fail).
    destruct (negb (elements reply =? List.length fields)%nat);
      [returned Htail|].
    destruct (hget_loop_true _ _ _ _ _ _ Htail _ _ _ Hi)
      as (r' & Hr' & Hcase).
    simpl in Hr'; rewrite Hel in Hr'; inversion Hr'; subst r'.
    destruct Hcase as [[_ Hout]|[Hnil _]].
    + rewrite Hout, Hstr; simpl; now rewrite c_string_cut.
    + unfold REDIS_REPLY_NIL, REDIS_REPLY_STRING in *; congruence.
  - intros k v ke st0 out0 st0' Hget Hr0.
    destruct (get_replied _ _ _ _ _ _ _ Hget Hr0) as (st1 & Htail).
    rewrite Hty in Htail; simpl in Htail.
    unfold ret in Htail; inversion Htail; subst; simpl.
    unfold string_of_buf, len; rewrite Hstr; apply substring_whole.
Qed.

(** When the loop stops at an element that is neither a string nor nil, the
    message it leaves is built from the array reply, not from the
    element. *)
Lemma hget_loop_false_message reply :
  forall its n (st : State) out st',
    hget_loop reply its n st = ((false, out), st') ->
    m_errmsg (self st') = m_errmsg (self st) \/
    m_errmsg (self st') = [of_char_ptr (str reply)] \/
    m_errmsg (self st') = [EText "Unexpected reply type "; ENum (type reply)].
Proof.
  induction its as [|[f0 v0] later IH]; intros n st out st' Hloop.
  - returned Hloop.
  - simpl in Hloop.
    destruct (nth_error (element reply) n) as [r|] eqn:En;
      [|returned Hloop; auto].
    unfold bind in Hloop.
    destruct (hget_loop reply later (S n) st) as [[b1 out1] st1] eqn:Erest.
    by_type r; try rewrite Erest in Hloop;
      unfold ret in Hloop; simpl in Hloop; inversion Hloop; subst; simpl;
      eauto.
Qed.

(** *** Results on failure *)

Lemma keeps_after_check {A} cmd expected (old : A)
    (rest : redisReply -> M (bool * A)) :
  (forall r st, fst (fst (rest r st)) = true) ->
  keeps_on_false
    (bind (run_command cmd)
          (fun reply => CHECK_REPLY reply expected (false, old) rest)) old.
Proof.
  intros Hrest st; unfold bind.
  destruct (run_command cmd st) as [[r|] st1]; unfold CHECK_REPLY;
    [|reflexivity].
  destruct (type r =? expected).
  - rewrite Hrest; discriminate.
  - destruct (type r =? REDIS_REPLY_ERROR); reflexivity.
Qed.

Lemma keeps_get key val key_exists :
  keeps_on_false (Net:=Net) (get key val key_exists) (val, key_exists).
Proof.
  intros st; unfold get, exec, bind.
  destruct (run_command _ st) as [[r|] st1]; [|reflexivity].
  destruct (type r =? REDIS_REPLY_STRING); [discriminate|].
  destruct (type r =? REDIS_REPLY_NIL); [discriminate|].
  destruct (type r =? REDIS_REPLY_ERROR); reflexivity.
Qed.

(* ------------------------------------------------------------------ *)
(** ** Further properties of the code *)

(** *** Parsing the address *)

Lemma length_append (a b : string) :
  String.length (a ++ b)%string = (String.length a + String.length b)%nat.
Proof. induction a as [|c a IH]; simpl; [reflexivity | now rewrite IH]. Qed.

Lemma substring_head (a b : string) :
  substring 0 (String.length a) (a ++ b)%string = a.
Proof.
  induction a as [|c a IH]; simpl.
  - destruct b; reflexivity.
  - now rewrite IH.
Qed.

Lemma substring_tail (a b : string) :
  substring (String.length a) (String.length b) (a ++ b)%string = b.
Proof.
  induction a as [|c a IH]; simpl; [apply substring_whole | exact IH].
Qed.

Lemma find_last_of_lacks s c : lacks c s = true -> find_last_of s c = None.
Proof.
  induction s as [|a s IH]; simpl; intros H; [reflexivity|].
  apply andb_true_iff in H; destruct H as [Ha Hs].
  apply negb_true_iff in Ha; now rewrite (IH Hs), Ha.
Qed.

(** The position found is that of the last occurrence. *)
Lemma find_last_of_split host c rest :
  lacks c rest = true ->
  find_last_of (host ++ String c rest)%string c = Some (String.length host).
Proof.
  intros Hrest; induction host as [|a host IH]; simpl.
  - now rewrite (find_last_of_lacks _ _ Hrest), Ascii.eqb_refl.
  - now rewrite IH.
Qed.

Lemma substr_after_colon host digits :
  substr (host ++ String ":" digits)%string (S (String.length host)) = digits.
Proof.
  unfold substr; induction host as [|a host IH]; simpl.
  - rewrite Nat.sub_0_r; apply substring_whole.
  - exact IH.
Qed.

(** X1.  The constructor throws [runtime_error("Invalid ip_port [...]")],
    without having talked to the transport, for an address without a colon
    and for an address whose text after the last colon is not empty and is
    read by [atoi] as a number outside 1..65535. *)
Theorem constructor_rejects (atoi : string -> Z) (world : Net) :
  (forall ip_port,
      lacks ":" ip_port = true ->
      RedisClient_new atoi ip_port world = inl (invalid_ip_port ip_port)) /\
  (forall host digits,
      lacks ":" digits = true ->
      digits <> EmptyString ->
      ~ (0 < atoi digits <= 65535) ->
      RedisClient_new atoi (host ++ String ":" digits)%string world
      = inl (invalid_ip_port (host ++ String ":" digits)%string)).
Proof.
  split.
  - intros ip_port Hno; unfold RedisClient_new.
    now rewrite (find_last_of_lacks _ _ Hno).
  - intros host digits Hno Hne Hport; unfold RedisClient_new.
    rewrite (find_last_of_split host _ _ Hno), substr_after_colon.
    assert (Hlt : (S (String.length host)
                   <? String.length (host ++ String ":" digits)%string)%nat
                  = true).
    { apply Nat.ltb_lt; rewrite length_append; simpl.
      destruct digits; [congruence | simpl; lia]. }
    rewrite Hlt.
    destruct ((atoi digits <=? 0) || (65535 <? atoi digits)) eqn:E;
      [reflexivity|].
    apply orb_false_iff in E; destruct E as [Hlo Hhi].
    apply Z.leb_gt in Hlo; apply Z.ltb_ge in Hhi; lia.
Qed.

(** X2.  The constructor splits the address at its last colon: the host is
    everything before it, colons included; the port is what [atoi] reads
    after it when that lies in 1..65535, and 6379 when nothing follows the
    colon, in which case [atoi] is not consulted.  The client then is the
    one [alloc_context] leaves when started on these members with no
    handle. *)
Theorem constructor_splits_at_last_colon (atoi : string -> Z) host digits
    (world : Net) :
  lacks ":" digits = true ->
  digits = EmptyString \/ 0 < atoi digits <= 65535 ->
  exists st,
    RedisClient_new atoi (host ++ String ":" digits)%string world = inr st /\
    m_ip_port (self st) = (host ++ String ":" digits)%string /\
    m_ip (self st) = host /\
    m_port (self st) =
      (if (String.length digits =? 0)%nat then 6379 else atoi digits) /\
    st = snd (alloc_context
                (mkState (mkClient (host ++ String ":" digits)%string host
                            (if (String.length digits =? 0)%nat
                             then 6379 else atoi digits) None [])
                         world [])).
Proof.
  intros Hno Hport.
  assert (Hnew :
    RedisClient_new atoi (host ++ String ":" digits)%string world
    = inr (snd (alloc_context
                  (mkState (mkClient (host ++ String ":" digits)%string host
                              (if (String.length digits =? 0)%nat
                               then 6379 else atoi digits) None [])
                           world [])))).
  { unfold RedisClient_new.
    rewrite (find_last_of_split host _ _ Hno), substr_after_colon.
    change (String ":" digits) with (String ":" EmptyString ++ digits)%string.
    assert (E : substring 0 (String.length host)
                  (host ++ (String ":" EmptyString ++ digits))%string = host)
      by apply substring_head.
    rewrite E, length_append; simpl String.length.
    destruct digits as [|d digits].
    - simpl. rewrite Nat.add_1_r, Nat.ltb_irrefl; reflexivity.
    - assert (Hlt : (S (String.length host)
                     <? String.length host + S (S (String.length digits)))%nat
                    = true) by (apply Nat.ltb_lt; lia).
      simpl String.length; rewrite Hlt.
      destruct Hport as [Hempty|[Hlo Hhi]]; [discriminate|].
      apply Z.leb_gt in Hlo; apply Z.ltb_ge in Hhi.
      rewrite Hlo, Hhi; reflexivity. }
  eexists; split; [exact Hnew|].
  destruct (alloc_context_fresh
              (host ++ String ":" digits)%string host
              (if (String.length digits =? 0)%nat then 6379 else atoi digits)
              world _ eq_refl)
    as (Haddr & Hip & Hp & _).
  rewrite Haddr, Hip, Hp; repeat split.
Qed.

(** *** Connecting *)

(** X3.  [alloc_context] asks the transport for one connection to the
    client's host and port and returns [true] exactly when it leaves the
    client with a handle, which is then a context without error.  When no
    context could be allocated, or the context carries an error (it is then
    freed), the handle is left empty and the message starts with "Failed to
    connect to" and the address. *)
Theorem alloc_context_outcome (st : State) ok st' :
  alloc_context st = (ok, st') ->
  exists res,
    (trace st' = EvConnect (m_ip (self st)) (m_port (self st)) res :: trace st
     \/ trace st' = EvFree :: EvConnect (m_ip (self st)) (m_port (self st)) res
                           :: trace st) /\
    (ok = true <-> m_context (self st') <> None) /\
    match res with
    | Some c =>
        if err c =? 0 then
          ok = true /\ m_context (self st') = Some c /\
          m_errmsg (self st') = m_errmsg (self st) /\
          trace st' = EvConnect (m_ip (self st)) (m_port (self st)) res
                                :: trace st
        else
          ok = false /\ m_context (self st') = None /\
          m_errmsg (self st') =
            [EText "Failed to connect to "; EText (m_ip_port (self st));
             EText ": "; EText (errstr c); EText " ("; ENum (err c);
             EText ")"] /\
          trace st' = EvFree :: EvConnect (m_ip (self st)) (m_port (self st))
                                          res :: trace st
    | None =>
        ok = false /\ m_context (self st') = None /\
        m_errmsg (self st') =
          [EText "Failed to connect to "; EText (m_ip_port (self st));
           EText ": Cannot allocate redisContext"] /\
        trace st' = EvConnect (m_ip (self st)) (m_port (self st)) res
                              :: trace st
    end.
Proof.
  destruct st as [[ip_port ip port ctx msg] w t].
  unfold_link; simpl.
  destruct (redisConnectWithTimeout ip port 2 w) as [[c|] w0]; simpl.
  - destruct (err c =? 0) eqn:Ec; simpl;
      intros H; inversion H; subst; clear H; simpl;
      exists (Some c); rewrite Ec; simpl.
    + split; [now left|]; split; [split; congruence|]; repeat split.
    + split; [now right|]; split; [split; congruence|]; repeat split.
  - intros H; inversion H; subst; clear H; simpl.
    exists None; split; [now left|]; split; [split; congruence|]; repeat split.
Qed.

(** *** How a call uses the transport *)

Lemma attempt_sparing ip port cmd held new reply :
  attempt ip port cmd held new reply ->
  (connect_attempts new <= 1)%nat /\
  (commands_sent new <= 1)%nat /\
  (held <> None -> connect_attempts new = 0%nat) /\
  (forall ip' port' res,
      In (EvConnect ip' port' res) new ->
      failed (EvConnect ip' port' res) = true ->
      commands_sent new = 0%nat) /\
  (forall cmd' res, In (EvCommand cmd' res) new -> cmd' = cmd).
Proof.
  intros Hat; inversion Hat; subst;
    unfold connect_attempts, commands_sent; simpl;
    (split; [lia|]); (split; [lia|]);
    (split; [intros; congruence || reflexivity|]);
    split; intros;
    repeat match goal with
      | H : _ \/ _ |- _ => destruct H
      | H : False |- _ => destruct H
      | H : EvConnect _ _ _ = EvConnect _ _ _ |- _ =>
          inversion H; subst; clear H
      | H : EvCommand _ _ = EvCommand _ _ |- _ =>
          inversion H; subst; clear H
      | H : _ = _ |- _ => discriminate H
      end;
    try reflexivity;
    simpl in *;
    try match goal with
      | H0 : err ?c = 0, H1 : negb (err ?c =? 0) = true |- _ =>
          rewrite H0 in H1; discriminate H1
      end.
Qed.

(** X4.  Every public method uses the transport sparingly: one call of it
    connects at most once and sends at most one command; it does not
    connect while a handle is held; and after a connect that failed it
    sends nothing, so a failure is never retried inside the call. *)
Theorem call_uses_transport_sparingly (op : operation) (st : State) b st' :
  perform op st = (b, st') ->
  exists new,
    trace st' = new ++ trace st /\
    (connect_attempts new <= 1)%nat /\
    (commands_sent new <= 1)%nat /\
    (m_context (self st) <> None -> connect_attempts new = 0%nat) /\
    (forall ip port res,
        In (EvConnect ip port res) new ->
        failed (EvConnect ip port res) = true ->
        commands_sent new = 0%nat).
Proof.
  intros Hrun.
  destruct (one_attempt_outcome _ (perform_one_attempt op) _ _ _ Hrun)
    as (new & Hnew & _ & _ & [(Hnil & _)|(cmd & reply & Hat & _)]);
    exists new; split; try exact Hnew.
  - subst new; unfold connect_attempts, commands_sent; simpl.
    repeat split; auto; intros; contradiction.
  - destruct (attempt_sparing _ _ _ _ _ _ Hat) as (H1 & H2 & H3 & H4 & _).
    repeat split; assumption.
Qed.

(** *** The link protocol *)

Lemma attempt_phase ip port cmd held new reply earlier :
  attempt ip port cmd held new reply ->
  link_phase earlier =
    Some (match held with Some _ => Ready | None => Idle end) ->
  link_phase (new ++ earlier) =
    Some (match reply with Some _ => Ready | None => Idle end).
Proof.
  intros Hat Hearlier; inversion Hat; subst; simpl; rewrite Hearlier; simpl;
    try reflexivity;
    repeat match goal with
      | H : err ?c = 0 |- _ => rewrite H; simpl
      | H : err ?c <> 0 |- _ => apply Z.eqb_neq in H; rewrite H; simpl
      end;
    reflexivity.
Qed.

(** X5.  In every state a client can reach, the transport has been used
    according to the protocol of its handle: a command was only ever sent
    on a working context, a connection was only asked for while no context
    was held, every context that came back with an error or lost its
    connection was freed before anything else, and nothing was freed
    twice.  Between calls the client holds a handle exactly when the link
    is ready. *)
Theorem reachable_link_protocol (atoi : string -> Z) (st : State) :
  reachable atoi st ->
  link_phase (trace st) =
  Some (match m_context (self st) with Some _ => Ready | None => Idle end).
Proof.
  induction 1 as [ip_port world st Hnew | op st b st' _ IH Hrun].
  - destruct (constructor_returns _ _ _ _ Hnew)
      as (pos & port & _ & _ & _ & Hst).
    subst st; unfold_link; simpl.
    destruct (redisConnectWithTimeout _ port 2 world) as [[c|] w0]; simpl;
      [|reflexivity].
    destruct (err c =? 0) eqn:Ec; simpl; rewrite Ec; reflexivity.
  - destruct (one_attempt_outcome _ (perform_one_attempt op) _ _ _ Hrun)
      as (new & Hnew & _ & _ &
          [(Hnil & _ & Hctx)|(cmd & reply & Hat & Hafter)]).
    + subst new; rewrite Hnew, Hctx; exact IH.
    + rewrite Hnew, (attempt_phase _ _ _ _ _ _ _ Hat IH).
      destruct reply as [r|].
      * destruct (m_context (self st')); [reflexivity|congruence].
      * destruct Hafter as [_ Hgone]; rewrite Hgone; reflexivity.
Qed.

(** *** The last error and the address across calls *)

Lemma success_through_call {A} (ok : A -> bool) cmd
    (tail : option redisReply -> M A) (st : State) a st' :
  (forall st0, ok (fst (tail None st0)) = false) ->
  (forall r st0,
      ok (fst (tail (Some r) st0)) = true ->
      m_errmsg (self (snd (tail (Some r) st0))) = m_errmsg (self st0)) ->
  bind (run_command cmd) tail st = (a, st') ->
  ok a = true ->
  m_errmsg (self st') = m_errmsg (self st).
Proof.
  intros Hnone Hsome Hrun Hok; unfold bind in Hrun.
  destruct (run_command cmd st) as [[r|] st1] eqn:E.
  - destruct (run_command_attempt _ _ _ _ E) as (_ & _ & _ & _ & _ & _ & _ & Hmsg).
    specialize (Hsome r st1); rewrite Hrun in Hsome; simpl in Hsome.
    rewrite (Hsome Hok); exact Hmsg.
  - specialize (Hnone st1); rewrite Hrun in Hnone; simpl in Hnone; congruence.
Qed.

Lemma hget_loop_true_silent reply :
  forall its n (st : State),
    fst (fst (hget_loop reply its n st)) = true ->
    m_errmsg (self (snd (hget_loop reply its n st))) = m_errmsg (self st).
Proof.
  induction its as [|[f0 v0] later IH]; intros n st; simpl; [reflexivity|].
  destruct (nth_error (element reply) n) as [r|]; [|discriminate].
  destruct (type r =? REDIS_REPLY_STRING).
  - unfold bind; specialize (IH (S n) st).
    destruct (hget_loop reply later (S n) st) as [[b1 out1] st1]; exact IH.
  - destruct (type r =? REDIS_REPLY_NIL).
    + unfold bind; specialize (IH (S n) st).
      destruct (hget_loop reply later (S n) st) as [[b1 out1] st1]; exact IH.
    + destruct (type r =? REDIS_REPLY_ERROR); discriminate.
Qed.

Lemma verdict_inv {A} (m : M (bool * A)) (st : State) b st' :
  verdict m st = (b, st') -> exists out, m st = ((b, out), st').
Proof.
  unfold verdict, bind, ret; destruct (m st) as [[b0 out] st1]; simpl.
  intros H; inversion H; subst; eauto.
Qed.

Ltac silent_tail :=
  first [ intros ?; reflexivity
        | let r := fresh "r" in
          let st0 := fresh "st0" in
          intros r st0; unfold CHECK_REPLY, store_count, expire_result;
          repeat match goal with
            | |- context [if ?c then _ else _] => destruct c
            end;
          simpl; intros; try discriminate; try reflexivity;
          try (apply hget_loop_true_silent; assumption) ].

(** X6.  A call that returns [true] leaves the last error message as it
    was: the message of an earlier failure is not cleared by a later
    success. *)
Theorem successful_call_keeps_last_error (op : operation) (st : State) st' :
  perform op st = (true, st') ->
  m_errmsg (self st') = m_errmsg (self st).
Proof.
  destruct op; simpl; intros Hrun;
    try (apply verdict_inv in Hrun; destruct Hrun as [out Hrun]).
  all: try (unfold select_db, expire, expire_at, ttl, get, sadd, scard,
              sdiff, sdiff_store, sinter, sinter_store, sismember, hget, hset,
              exec, execv, execm in Hrun;
            first
              [ eapply (success_through_call (fun b : bool => b));
                [| |exact Hrun|reflexivity]; silent_tail
              | eapply (success_through_call (@fst bool _));
                [| |exact Hrun|reflexivity]; silent_tail ]).
  (* [set] *)
  destruct expire_tm as [e|].
  - rewrite set_with_expiry in Hrun.
    destruct (remaining_seconds e (net st) <=? 0); [returned Hrun|].
    destruct (set_send_ex_shape key val (remaining_seconds e (net st))
                                op_type) as [[_ [cmd E]]|[_ E]];
      rewrite E in Hrun; [|returned Hrun].
    eapply (success_through_call (fun b : bool => b));
      [| |exact Hrun|reflexivity];
      [intros ?; reflexivity|].
    intros r st0; unfold set_reply.
    repeat match goal with
      | |- context [if ?c then _ else _] => destruct c
      end; simpl; intros; try discriminate; reflexivity.
  - rewrite set_without_expiry in Hrun.
    destruct (set_send_shape key val op_type) as [[_ [cmd E]]|[_ E]];
      rewrite E in Hrun; [|returned Hrun].
    eapply (success_through_call (fun b : bool => b));
      [| |exact Hrun|reflexivity];
      [intros ?; reflexivity|].
    intros r st0; unfold set_reply.
    repeat match goal with
      | |- context [if ?c then _ else _] => destruct c
      end; simpl; intros; try discriminate; reflexivity.
Qed.

Lemma perform_keeps_address (op : operation) (st : State) b st' :
  perform op st = (b, st') ->
  m_ip_port (self st') = m_ip_port (self st) /\
  m_ip (self st') = m_ip (self st) /\
  m_port (self st') = m_port (self st).
Proof.
  intros Hrun.
  destruct (perform_one_attempt op st)
    as [[Hsame _]|(cmd & tail & Hq & _ & E)].
  - rewrite Hrun in Hsame; simpl in Hsame.
    destruct Hsame as (_ & _ & _ & Hip & Hport & Haddr); auto.
  - rewrite Hrun in E; symmetry in E; unfold bind in E.
    destruct (run_command cmd st) as [reply st1] eqn:Erun.
    destruct (run_command_attempt _ _ _ _ Erun)
      as (_ & _ & _ & Hip & Hport & Haddr & _).
    pose proof (Hq reply st1) as Hsame; rewrite E in Hsame; simpl in Hsame.
    destruct Hsame as (_ & _ & _ & Hip' & Hport' & Haddr').
    repeat split; congruence.
Qed.

(** X7.  No public method changes the address of the client, so in every
    state a client can reach the host is still the part of the address
    string before its last colon and the port still lies in 1..65535: the
    client keeps talking to the server it was constructed for. *)
Theorem reachable_address (atoi : string -> Z) (st : State) :
  reachable atoi st ->
  exists pos,
    find_last_of (m_ip_port (self st)) ":" = Some pos /\
    m_ip (self st) = substring 0 pos (m_ip_port (self st)) /\
    0 < m_port (self st) <= 65535.
Proof.
  induction 1 as [ip_port world st Hnew | op st b st' _ IH Hrun].
  - destruct (constructor_returns _ _ _ _ Hnew)
      as (pos & port & Hpos & Hport & _ & Hst).
    destruct (alloc_context_fresh _ _ _ _ _ Hst)
      as (Haddr & Hip & Hp & _).
    exists pos; rewrite Haddr, Hip, Hp; auto.
  - destruct (perform_keeps_address _ _ _ _ Hrun) as (Haddr & Hip & Hp).
    rewrite Haddr, Hip, Hp; exact IH.
Qed.

(** *** What the other methods make of a reply *)

Lemma checked_replied {A} cmd expected (no : A)
    (rest : redisReply -> M A) (st : State) out st' r :
  (forall r0, quiet (rest r0)) ->
  bind (run_command cmd)
       (fun reply => CHECK_REPLY reply expected no rest) st = (out, st') ->
  replied st st' r ->
  exists st1,
    m_errmsg (self st1) = m_errmsg (self st) /\
    CHECK_REPLY (Some r) expected no rest st1 = (out, st').
Proof.
  intros Hq Hrun Hr.
  eapply replied_inv in Hrun;
    [|intros reply; apply quiet_CHECK_REPLY; exact Hq|exact Hr].
  destruct Hrun as (st1 & Erun & Htail).
  destruct (run_command_attempt _ _ _ _ Erun)
    as (_ & _ & _ & _ & _ & _ & _ & Hmsg).
  eauto.
Qed.

Ltac through_check Hrun Hr :=
  unfold select_db, ttl, sadd, scard, sdiff, sdiff_store, sinter,
    sinter_store, sismember, hget, hset, expire, expire_at,
    exec, execv, execm in Hrun;
  eapply checked_replied in Hrun;
    [| intros ?; unfold store_count; auto 6 with link | exact Hr];
  let st1 := fresh "st1" in
  let Hmsg := fresh "Hmsg" in
  let Htail := fresh "Htail" in
  destruct Hrun as (st1 & Hmsg & Htail);
  unfold CHECK_REPLY, store_count, expire_result in Htail.

Lemma check_hands_back {A} cmd expected (old : A) (value : redisReply -> A) :
  expected <> REDIS_REPLY_ERROR ->
  hands_back (Net:=Net)
    (bind (run_command cmd)
          (fun reply => CHECK_REPLY reply expected (false, old)
                          (fun r => ret (true, value r))))
    expected value.
Proof.
  intros Hexp st out st' r Hrun Hr.
  eapply checked_replied in Hrun; [|intros ?; auto with link|exact Hr].
  destruct Hrun as (st1 & _ & Htail); unfold CHECK_REPLY in Htail.
  destruct (type r =? expected) eqn:E;
    [apply Z.eqb_eq in E | apply Z.eqb_neq in E].
  - returned Htail; repeat split; auto.
  - destruct (type r =? REDIS_REPLY_ERROR); returned Htail;
      (split; [split; [discriminate|contradiction]|contradiction]).
Qed.

(** X8.  [ttl] and [scard] send [TTL key] and [SCARD key], get the answer
    the transport gives, succeed exactly on an integer reply and hand the
    integer back as it is, negative values included ([ttl] does not
    interpret the -1 and -2 of the server); without a reply they fail. *)
Theorem integer_handed_back_as_is :
  (forall key ttl_,
      lives_on_reply (Net:=Net) (ttl key ttl_)
        (Formatted "TTL %b" [ArgBytes key]) fst /\
      hands_back (Net:=Net) (ttl key ttl_) REDIS_REPLY_INTEGER integer) /\
  (forall key cnt,
      lives_on_reply (Net:=Net) (scard key cnt)
        (Formatted "SCARD %b" [ArgBytes key]) fst /\
      hands_back (Net:=Net) (scard key cnt) REDIS_REPLY_INTEGER integer).
Proof.
  split; intros; (split; [lives|]);
    unfold ttl, scard, exec; apply check_hands_back; discriminate.
Qed.

(** X9.  [sismember] succeeds exactly on an integer reply and reports
    membership exactly when that integer is not zero. *)
Theorem sismember_nonzero_is_member key val is_member (st : State) out st' r :
  sismember key val is_member st = (out, st') ->
  replied st st' r ->
  (fst out = true <-> type r = REDIS_REPLY_INTEGER) /\
  (type r = REDIS_REPLY_INTEGER ->
     (snd out = true <-> integer r <> 0)).
Proof.
  intros Hrun Hr; through_check Hrun Hr.
  by_type r; returned Htail;
    repeat split; intros; try reflexivity; try discriminate; try lia.
Qed.

(** X10.  [sadd], [sdiff_store] and [sinter_store] send their command
    (the name, the key or destination, then the values or keys), get the
    answer the transport gives, and succeed exactly on an integer reply;
    the count is then written through [cnt] when the caller gave a
    pointer, and a null [cnt] is accepted: the call still succeeds and
    writes nothing.  Without a reply they fail. *)
Theorem count_written_through_pointer :
  (forall key vals cnt,
      lives_on_reply (Net:=Net) (sadd key vals cnt)
        (Argv ("SADD" :: key :: vals)) fst /\
      hands_back (Net:=Net) (sadd key vals cnt) REDIS_REPLY_INTEGER
        (fun r => match cnt with
                  | Some _ => Some (integer r)
                  | None => None
                  end)) /\
  (forall dest keys cnt,
      lives_on_reply (Net:=Net) (sdiff_store dest keys cnt)
        (Argv ("SDIFFSTORE" :: dest :: keys)) fst /\
      hands_back (Net:=Net) (sdiff_store dest keys cnt) REDIS_REPLY_INTEGER
        (fun r => match cnt with
                  | Some _ => Some (integer r)
                  | None => None
                  end)) /\
  (forall dest keys cnt,
      lives_on_reply (Net:=Net) (sinter_store dest keys cnt)
        (Argv ("SINTERSTORE" :: dest :: keys)) fst /\
      hands_back (Net:=Net) (sinter_store dest keys cnt) REDIS_REPLY_INTEGER
        (fun r => match cnt with
                  | Some _ => Some (integer r)
                  | None => None
                  end)).
Proof.
  split; [|split]; intros; (split; [lives|]);
    intros st out st' r Hrun Hr; through_check Hrun Hr;
    by_type r; returned Htail;
    repeat split; intros; try reflexivity; try discriminate; try lia;
    destruct cnt; reflexivity.
Qed.

Lemma arr_reply_to_vector_all (replies : list redisReply) :
  arr_reply_to_vector replies (List.length replies) = map payload replies.
Proof. unfold arr_reply_to_vector; now rewrite firstn_all. Qed.

Lemma payload_whole r bytes : str r = Some bytes -> payload r = bytes.
Proof.
  intros H; unfold payload, string_of_buf, len; rewrite H.
  apply substring_whole.
Qed.

Lemma payload_bytes r :
  payload r = match str r with Some bytes => bytes | None => EmptyString end.
Proof.
  destruct (str r) as [bytes|] eqn:E; [now apply payload_whole|].
  unfold payload, string_of_buf; now rewrite E.
Qed.

(** X11.  [sdiff] and [sinter] send [SDIFF keys...] and [SINTER keys...],
    get the answer the transport gives, and succeed exactly on an array
    reply.  The result then is one string per element of the array, in the
    order of the array, each holding all the bytes of its element (a NUL
    included, and the empty string for an element without text); what
    [result] held before the call is gone.  Without a reply they fail. *)
Theorem array_reply_becomes_vector :
  (forall keys result,
      lives_on_reply (Net:=Net) (sdiff keys result)
        (Argv ("SDIFF" :: keys)) fst /\
      hands_back (Net:=Net) (sdiff keys result) REDIS_REPLY_ARRAY
        (fun r => map (fun e => match str e with
                                | Some bytes => bytes
                                | None => EmptyString
                                end) (element r))) /\
  (forall keys result,
      lives_on_reply (Net:=Net) (sinter keys result)
        (Argv ("SINTER" :: keys)) fst /\
      hands_back (Net:=Net) (sinter keys result) REDIS_REPLY_ARRAY
        (fun r => map (fun e => match str e with
                                | Some bytes => bytes
                                | None => EmptyString
                                end) (element r))).
Proof.
  split; intros; (split; [lives|]);
    intros st out st' r Hrun Hr; through_check Hrun Hr;
    by_type r; returned Htail;
    repeat split; intros; try reflexivity; try discriminate; try lia;
    unfold elements; rewrite arr_reply_to_vector_all;
    apply map_ext; intros e; apply payload_bytes.
Qed.

Lemma status_verdict cmd (st : State) b st' r :
  bind (run_command cmd)
       (fun reply => CHECK_REPLY reply REDIS_REPLY_STATUS false
                       (fun _ => ret true)) st = (b, st') ->
  replied st st' r ->
  (b = true <-> type r = REDIS_REPLY_STATUS) /\
  (type r = REDIS_REPLY_ERROR ->
     m_errmsg (self st') = [of_char_ptr (str r)]) /\
  (type r <> REDIS_REPLY_STATUS -> type r <> REDIS_REPLY_ERROR ->
     m_errmsg (self st') = [EText "Unexpected reply type "; ENum (type r)]).
Proof.
  intros Hrun Hr.
  eapply checked_replied in Hrun; [|intros ?; auto with link|exact Hr].
  destruct Hrun as (st1 & _ & Htail); unfold CHECK_REPLY in Htail.
  by_type r; returned Htail;
    repeat split; intros; try reflexivity; try discriminate; try lia.
Qed.

(** X12.  [select_db] and [hset] send [SELECT index] and [HMSET key field
    value ...] (the fields in the order of the map), get the answer the
    transport gives, and return [true] exactly when that reply is a status
    reply; an error reply gives [false] with its text as the message, any
    other reply gives [false] with "Unexpected reply type" and the tag, and
    without a reply they return [false]. *)
Theorem status_means_done :
  (forall dbidx,
      lives_on_reply (Net:=Net) (select_db dbidx)
        (Formatted "SELECT %d" [ArgNum dbidx]) (fun b => b) /\
      forall (st : State) b st' r,
        select_db dbidx st = (b, st') -> replied st st' r ->
        (b = true <-> type r = REDIS_REPLY_STATUS) /\
        (type r = REDIS_REPLY_ERROR ->
           m_errmsg (self st') = [of_char_ptr (str r)]) /\
        (type r <> REDIS_REPLY_STATUS -> type r <> REDIS_REPLY_ERROR ->
           m_errmsg (self st') =
           [EText "Unexpected reply type "; ENum (type r)])) /\
  (forall key fields,
      lives_on_reply (Net:=Net) (hset key fields)
        (Argv ("HMSET" :: key ::
               flat_map (fun kv => [fst kv; snd kv]) fields))
        (fun b => b) /\
      forall (st : State) b st' r,
        hset key fields st = (b, st') -> replied st st' r ->
        (b = true <-> type r = REDIS_REPLY_STATUS) /\
        (type r = REDIS_REPLY_ERROR ->
           m_errmsg (self st') = [of_char_ptr (str r)]) /\
        (type r <> REDIS_REPLY_STATUS -> type r <> REDIS_REPLY_ERROR ->
           m_errmsg (self st') =
           [EText "Unexpected reply type "; ENum (type r)])).
Proof.
  split; intros; (split; [lives|]);
    intros st b st' r Hrun Hr;
    unfold select_db, hset, exec, execm in Hrun;
    exact (status_verdict _ _ _ _ _ Hrun Hr).
Qed.

Lemma other_integer_rejected cmd (st : State) b st' r :
  bind (run_command cmd)
       (fun reply => CHECK_REPLY reply REDIS_REPLY_INTEGER false
                                 expire_result) st = (b, st') ->
  replied st st' r ->
  type r = REDIS_REPLY_INTEGER -> integer r <> 1 ->
  b = false /\
  m_errmsg (self st') =
  [EText "Key does not exist or the timeout could not be set. reply->integer is ";
   ENum (integer r)].
Proof.
  intros Hrun Hr Hty Hint.
  eapply checked_replied in Hrun; [|intros ?; auto with link|exact Hr].
  destruct Hrun as (st1 & _ & Htail).
  unfold CHECK_REPLY, expire_result in Htail.
  rewrite Hty in Htail; simpl in Htail.
  apply Z.eqb_neq in Hint; rewrite Hint in Htail.
  returned Htail; split; reflexivity.
Qed.

(** X13.  [expire] and [expire_at], which send [EXPIRE key seconds] and
    [EXPIREAT key time] and get the answer the transport gives, return
    [false] for every integer reply other than 1, not only for 0, and the
    message then carries the integer received. *)
Theorem expire_rejects_other_integers :
  (forall key seconds,
      lives_on_reply (Net:=Net) (expire key seconds)
        (Formatted "EXPIRE %b %u" [ArgBytes key; ArgNum seconds])
        (fun b => b) /\
      forall (st : State) b st' r,
        expire key seconds st = (b, st') -> replied st st' r ->
        type r = REDIS_REPLY_INTEGER -> integer r <> 1 ->
        b = false /\
        m_errmsg (self st') =
        [EText "Key does not exist or the timeout could not be set. reply->integer is ";
         ENum (integer r)]) /\
  (forall key expired_tm,
      lives_on_reply (Net:=Net) (expire_at key expired_tm)
        (Formatted "EXPIREAT %b %lld" [ArgBytes key; ArgNum expired_tm])
        (fun b => b) /\
      forall (st : State) b st' r,
        expire_at key expired_tm st = (b, st') -> replied st st' r ->
        type r = REDIS_REPLY_INTEGER -> integer r <> 1 ->
        b = false /\
        m_errmsg (self st') =
        [EText "Key does not exist or the timeout could not be set. reply->integer is ";
         ENum (integer r)]).
Proof.
  split; intros;
    (split;
     [first [apply expire_lives_on_reply | apply expire_at_lives_on_reply]|]);
    intros st b st' r Hrun Hr Hty Hint;
    unfold expire, expire_at, exec in Hrun;
    exact (other_integer_rejected _ _ _ _ _ Hrun Hr Hty Hint).
Qed.

(** *** More on [hget] *)

Lemma hget_loop_keys reply :
  forall its n (st : State),
    map fst (snd (fst (hget_loop reply its n st))) = map fst its.
Proof.
  induction its as [|[f0 v0] later IH]; intros n st; simpl; [reflexivity|].
  destruct (nth_error (element reply) n) as [r|]; [|reflexivity].
  destruct (type r =? REDIS_REPLY_STRING).
  - unfold bind; specialize (IH (S n) st).
    destruct (hget_loop reply later (S n) st) as [[b1 out1] st1]; simpl in *.
    now rewrite IH.
  - destruct (type r =? REDIS_REPLY_NIL).
    + unfold bind; specialize (IH (S n) st).
      destruct (hget_loop reply later (S n) st) as [[b1 out1] st1]; simpl in *.
      now rewrite IH.
    + destruct (type r =? REDIS_REPLY_ERROR); reflexivity.
Qed.

(** X14.  Whatever the transport answers and whether it succeeds or not,
    [hget] leaves the map with the fields it was given, in the same order:
    it only ever assigns to values, and never adds, drops or renames a
    field. *)
Theorem hget_keeps_the_fields key fields (st : State) :
  map fst (snd (fst (hget key fields st))) = map fst fields.
Proof.
  unfold hget, execm, bind.
  destruct (run_command _ st) as [[r|] st1]; [|reflexivity].
  unfold CHECK_REPLY.
  destruct (type r =? REDIS_REPLY_ARRAY).
  - destruct (negb (elements r =? List.length fields)%nat);
      [reflexivity | apply hget_loop_keys].
  - destruct (type r =? REDIS_REPLY_ERROR); reflexivity.
Qed.

(** X15.  When the reply to HMGET is an array whose length differs from
    the number of fields asked for, [hget] returns [false], writes no
    field, and the message gives the number expected and the number
    returned. *)
Theorem hget_arity_mismatch key fields (st : State) out st' reply :
  hget key fields st = (out, st') ->
  replied st st' reply ->
  type reply = REDIS_REPLY_ARRAY ->
  List.length (element reply) <> List.length fields ->
  out = (false, fields) /\
  m_errmsg (self st') =
  [EText "Invalid number of elements returned! Expected ";
   ENum (Z.of_nat (List.length fields));
   EText ", Returned "; ENum (Z.of_nat (List.length (element reply)))].
Proof.
  intros Hrun Hr Hty Hlen.
  destruct (hget_replied _ _ _ _ _ _ Hrun Hr) as (st1 & Htail).
  unfold CHECK_REPLY in Htail; rewrite Hty in Htail; simpl in Htail.
  unfold elements in Htail.
  apply Nat.eqb_neq in Hlen; rewrite Hlen in Htail; simpl in Htail.
  returned Htail; split; reflexivity.
Qed.

Lemma skipn_nth_error {A} (l : list A) n e :
  nth_error l n = Some e -> skipn n l = e :: skipn (S n) l.
Proof.
  revert n; induction l as [|a l IH]; intros [|n] H; simpl in *;
    try discriminate.
  - now inversion H.
  - now apply IH.
Qed.

(** The loop runs to its end exactly when every element it visits is a
    string or nil. *)
Lemma hget_loop_true_iff reply :
  forall its n (st : State),
    (n + List.length its = List.length (element reply))%nat ->
    (fst (fst (hget_loop reply its n st)) = true <->
     Forall (fun e => type e = REDIS_REPLY_STRING \/ type e = REDIS_REPLY_NIL)
            (skipn n (element reply))).
Proof.
  induction its as [|[f0 v0] later IH]; intros n st Hlen; simpl in *.
  - rewrite Nat.add_0_r in Hlen; subst n; rewrite skipn_all.
    split; [constructor | reflexivity].
  - destruct (nth_error (element reply) n) as [r|] eqn:En.
    2:{ apply nth_error_None in En; lia. }
    rewrite (skipn_nth_error _ _ _ En).
    assert (Hnext : (S n + List.length later
                     = List.length (element reply))%nat) by lia.
    specialize (IH (S n) st Hnext).
    remember (skipn (S n) (element reply)) as rest eqn:Erest.
    by_type_goal r; unfold bind;
      try (destruct (hget_loop reply later (S n) st) as [[b1 out1] st1];
           simpl in *; rewrite IH;
           split; [intros H; constructor; auto | intros H; now inversion H]);
      (split; [discriminate|intros H; inversion H; subst; lia]).
Qed.

(** X16.  [hget] returns [true] exactly when the reply is an array with
    one element per field asked for, each a string or nil.  The map then
    has, for the field at each position of its iteration order, the C
    string of the element at the same position of the array, or the empty
    string when that element is nil. *)
Theorem hget_fills_fields_in_order key fields (st : State) out st' reply :
  hget key fields st = (out, st') ->
  replied st st' reply ->
  (fst out = true <->
   type reply = REDIS_REPLY_ARRAY /\
   List.length (element reply) = List.length fields /\
   Forall (fun e => type e = REDIS_REPLY_STRING \/ type e = REDIS_REPLY_NIL)
          (element reply)) /\
  (fst out = true ->
   forall i field old,
     nth_error fields i = Some (field, old) ->
     exists e,
       nth_error (element reply) i = Some e /\
       ((type e = REDIS_REPLY_STRING /\
         nth_error (snd out) i = Some (field, string_of_cstr (str e))) \/
        (type e = REDIS_REPLY_NIL /\
         nth_error (snd out) i = Some (field, EmptyString)))).
Proof.
  intros Hrun Hr.
  destruct (hget_replied _ _ _ _ _ _ Hrun Hr) as (st1 & Htail).
  unfold CHECK_REPLY in Htail.
  destruct (type reply =? REDIS_REPLY_ARRAY) eqn:Ety.
  2:{ apply Z.eqb_neq in Ety.
      destruct (type reply =? REDIS_REPLY_ERROR); returned Htail;
        (split; [split; [discriminate|tauto]|discriminate]). }
  apply Z.eqb_eq in Ety.
  unfold elements in Htail.
  destruct (List.length (element reply) =? List.length fields)%nat eqn:Elen;
    simpl in Htail.
  2:{ apply Nat.eqb_neq in Elen; returned Htail.
      split; [split; [discriminate|tauto]|discriminate]. }
  apply Nat.eqb_eq in Elen.
  pose proof (hget_loop_true_iff reply fields 0 st1) as Hiff.
  rewrite Htail in Hiff; simpl in Hiff.
  split.
  - rewrite (Hiff (eq_sym Elen)); tauto.
  - intros Hok i field old Hi.
    destruct out as [b out]; simpl in Hok; subst b.
    exact (hget_loop_true _ _ _ _ _ _ Htail _ _ _ Hi).
Qed.

(** Where the loop stops when it fails, and what it has done by then. *)
Lemma hget_loop_false reply :
  forall its n (st : State) out st',
    hget_loop reply its n st = ((false, out), st') ->
    (n + List.length its <= List.length (element reply))%nat ->
    exists i e,
      (i < List.length its)%nat /\
      nth_error (element reply) (n + i) = Some e /\
      type e <> REDIS_REPLY_STRING /\ type e <> REDIS_REPLY_NIL /\
      skipn i out = skipn i its /\
      (forall j field old,
          (j < i)%nat ->
          nth_error its j = Some (field, old) ->
          exists ej,
            nth_error (element reply) (n + j) = Some ej /\
            ((type ej = REDIS_REPLY_STRING /\
              nth_error out j = Some (field, string_of_cstr (str ej))) \/
             (type ej = REDIS_REPLY_NIL /\
              nth_error out j = Some (field, EmptyString)))) /\
      (type e = REDIS_REPLY_ERROR ->
         m_errmsg (self st') = [of_char_ptr (str reply)]) /\
      (type e <> REDIS_REPLY_ERROR ->
         m_errmsg (self st') =
         [EText "Unexpected reply type "; ENum (type reply)]).
Proof.
  induction its as [|[f0 v0] later IH]; intros n st out st' Hloop Hlen;
    simpl in *.
  - returned Hloop.
  - destruct (nth_error (element reply) n) as [r|] eqn:En.
    2:{ apply nth_error_None in En; lia. }
    unfold bind in Hloop.
    destruct (hget_loop reply later (S n) st) as [[b1 out1] st1] eqn:Erest.
    assert (Hstep :
      forall value,
        type r = REDIS_REPLY_STRING /\ value = string_of_cstr (str r) \/
        type r = REDIS_REPLY_NIL /\ value = EmptyString ->
        b1 = false -> out = (f0, value) :: out1 -> st' = st1 ->
        exists i e,
          (i < S (List.length later))%nat /\
          nth_error (element reply) (n + i) = Some e /\
          type e <> REDIS_REPLY_STRING /\ type e <> REDIS_REPLY_NIL /\
          skipn i out = skipn i ((f0, v0) :: later) /\
          (forall j field old,
              (j < i)%nat ->
              nth_error ((f0, v0) :: later) j = Some (field, old) ->
              exists ej,
                nth_error (element reply) (n + j) = Some ej /\
                ((type ej = REDIS_REPLY_STRING /\
                  nth_error out j = Some (field, string_of_cstr (str ej))) \/
                 (type ej = REDIS_REPLY_NIL /\
                  nth_error out j = Some (field, EmptyString)))) /\
          (type e = REDIS_REPLY_ERROR ->
             m_errmsg (self st') = [of_char_ptr (str reply)]) /\
          (type e <> REDIS_REPLY_ERROR ->
             m_errmsg (self st') =
             [EText "Unexpected reply type "; ENum (type reply)])).
    { intros value Hvalue -> -> ->.
      destruct (IH (S n) st _ _ Erest ltac:(lia))
        as (i & e & Hi & He & Hns & Hnn & Hskip & Hbefore & Hmsg).
      exists (S i), e.
      rewrite Nat.add_succ_r.
      split; [lia|]; split; [exact He|]; split; [exact Hns|];
        split; [exact Hnn|]; split; [exact Hskip|]; split; [|exact Hmsg].
      intros [|j] field old Hj Hnth; simpl in Hnth.
      - inversion Hnth; subst; exists r; rewrite Nat.add_0_r.
        split; [exact En|].
        destruct Hvalue as [[Ht ->]|[Ht ->]]; [left|right]; auto.
      - rewrite Nat.add_succ_r.
        apply (Hbefore j field old); [lia | exact Hnth]. }
    by_type r.
    + rewrite Erest in Hloop; unfold ret in Hloop; simpl in Hloop.
      inversion Hloop; subst.
      eapply Hstep; eauto.
    + rewrite Erest in Hloop; unfold ret in Hloop; simpl in Hloop.
      inversion Hloop; subst.
      eapply Hstep; eauto.
    + returned Hloop.
      exists 0%nat, r; rewrite Nat.add_0_r.
      repeat split; auto; try lia; intros; lia.
    + returned Hloop.
      exists 0%nat, r; rewrite Nat.add_0_r.
      repeat split; auto; try lia; intros; lia.
Qed.

(** X17.  When the array has the right length but [hget] fails, it stopped
    at the first element that is neither a string nor nil: the fields
    before that position have been given their values, the field at that
    position and all later ones are as the caller passed them. *)
Theorem hget_stops_at_first_bad_element key fields (st : State) out st' reply :
  hget key fields st = ((false, out), st') ->
  replied st st' reply ->
  type reply = REDIS_REPLY_ARRAY ->
  List.length (element reply) = List.length fields ->
  exists i e,
    nth_error (element reply) i = Some e /\
    type e <> REDIS_REPLY_STRING /\ type e <> REDIS_REPLY_NIL /\
    Forall (fun e => type e = REDIS_REPLY_STRING \/ type e = REDIS_REPLY_NIL)
           (firstn i (element reply)) /\
    skipn i out = skipn i fields /\
    (forall j field old,
        (j < i)%nat ->
        nth_error fields j = Some (field, old) ->
        exists ej,
          nth_error (element reply) j = Some ej /\
          ((type ej = REDIS_REPLY_STRING /\
            nth_error out j = Some (field, string_of_cstr (str ej))) \/
           (type ej = REDIS_REPLY_NIL /\
            nth_error out j = Some (field, EmptyString)))).
Proof.
  intros Hrun Hr Hty Hlen.
  destruct (hget_replied _ _ _ _ _ _ Hrun Hr) as (st1 & Htail).
  unfold CHECK_REPLY in Htail; rewrite Hty in Htail; simpl in Htail.
  unfold elements in Htail.
  rewrite Hlen, Nat.eqb_refl in Htail; simpl in Htail.
  destruct (hget_loop_false _ _ _ _ _ _ Htail ltac:(simpl; lia))
    as (i & e & Hi & He & Hns & Hnn & Hskip & Hbefore & _).
  simpl in He, Hbefore.
  exists i, e; repeat split; auto.
  apply Forall_forall; intros x Hx.
  apply In_nth_error in Hx; destruct Hx as [j Hj].
  assert (Hji : (j < i)%nat).
  { assert (Hsome : nth_error (firstn i (element reply)) j <> None)
      by congruence.
    apply nth_error_Some in Hsome.
    rewrite length_firstn in Hsome; lia. }
  rewrite nth_error_firstn in Hj.
  assert (Hjb : (j <? i)%nat = true) by now apply Nat.ltb_lt.
  rewrite Hjb in Hj.
  destruct (nth_error fields j) as [[field old]|] eqn:Ef.
  - destruct (Hbefore j field old Hji Ef) as (ej & Hej & Hcase).
    rewrite Hj in Hej; inversion Hej; subst; tauto.
  - apply nth_error_None in Ef; lia.
Qed.

(** *** Losing the connection and getting it back *)

(** X18.  A [get] on a client whose connection has died returns [false]
    without touching its results, records the transport's error text and
    code, and drops the handle; it does not try again itself.  The next
    [get] connects anew and, when the server answers, returns the value on
    the new handle, the message of the failed call still in place. *)
Theorem get_recovers_on_the_next_call key val key_exists (st : State)
    c c1 w1 c2 w2 r c3 w3 bytes :
  m_context (self st) = Some c ->
  redisCommand c (Formatted "GET %b" [ArgBytes key]) (net st)
    = (None, c1, w1) ->
  redisConnectWithTimeout (m_ip (self st)) (m_port (self st)) 2
                          (redisFree c1 w1) = (Some c2, w2) ->
  err c2 = 0 ->
  redisCommand c2 (Formatted "GET %b" [ArgBytes key]) w2
    = (Some r, c3, w3) ->
  type r = REDIS_REPLY_STRING ->
  str r = Some bytes ->
  exists st1 st2,
    get key val key_exists st = ((false, (val, key_exists)), st1) /\
    m_context (self st1) = None /\
    m_errmsg (self st1) =
      [EText (errstr c1); EText " ("; ENum (err c1); EText ")"] /\
    trace st1 =
      EvFree :: EvCommand (Formatted "GET %b" [ArgBytes key]) None
             :: trace st /\
    get key val key_exists st1
      = ((true, (bytes, option_map (fun _ => true) key_exists)), st2) /\
    m_context (self st2) = Some c3 /\
    m_errmsg (self st2) = m_errmsg (self st1) /\
    trace st2 =
      EvCommand (Formatted "GET %b" [ArgBytes key]) (Some r)
        :: EvConnect (m_ip (self st)) (m_port (self st)) (Some c2)
        :: trace st1.
Proof.
  destruct st as [[ip_port ip port ctx msg] w t]; simpl.
  intros -> Hlost Hconn Herr Hback Hty Hstr.
  apply Z.eqb_eq in Herr.
  eexists; eexists.
  split.
  { unfold get, exec; unfold_link; simpl; rewrite Hlost; simpl; reflexivity. }
  simpl; split; [reflexivity|]; split; [reflexivity|]; split; [reflexivity|].
  split.
  { unfold get, exec; unfold_link; simpl.
    rewrite Hconn; simpl; rewrite Herr; simpl; rewrite Hback; simpl.
    rewrite Hty; simpl.
    unfold string_of_buf, len; rewrite Hstr, substring_whole; reflexivity. }
  simpl; repeat split.
Qed.

(** *** What [set] sends *)

Lemma sent_is_the_command {A} cmd (tail : option redisReply -> M A)
    (st : State) a st' new cmd' res :
  (forall reply, quiet (tail reply)) ->
  bind (run_command cmd) tail st = (a, st') ->
  trace st' = new ++ trace st ->
  In (EvCommand cmd' res) new ->
  cmd' = cmd.
Proof.
  intros Hq Hrun Hnew Hin; unfold bind in Hrun.
  destruct (run_command cmd st) as [reply st1] eqn:E.
  destruct (run_command_attempt _ _ _ _ E) as (new0 & Hnew0 & Hat & _).
  pose proof (Hq reply st1) as Hsame; rewrite Hrun in Hsame; simpl in Hsame.
  destruct Hsame as (_ & Ht & _).
  rewrite Ht, Hnew0 in Hnew; apply app_inv_tail in Hnew; subst new0.
  destruct (attempt_sparing _ _ _ _ _ _ Hat) as (_ & _ & _ & _ & Hcmd).
  exact (Hcmd _ _ Hin).
Qed.

Lemma quiet_sends_nothing {A} (m : M A) (st : State) a st' new e :
  quiet m -> m st = (a, st') -> trace st' = new ++ trace st -> ~ In e new.
Proof.
  intros Hq Hrun Hnew Hin.
  specialize (Hq st); rewrite Hrun in Hq; destruct Hq as (_ & Ht & _).
  simpl in Ht; rewrite Ht in Hnew.
  change (trace st) with ([] ++ trace st) in Hnew at 1.
  apply app_inv_tail in Hnew; subst new; exact Hin.
Qed.

(** X19.  Whatever command a [set] call sends, the operation type was a
    recognised one and the command is the SET variant for it: no flag for
    Anyhow, NX for IfNotExist, XX for IfExist, with the key and the value
    passed as whole byte strings.  With an expiry the command has the EX
    clause, and the number of seconds in it is the remaining time read at
    the call, which is positive; without one it has no EX clause. *)
Theorem set_sends_the_variant_asked_for key val expire_tm op_type
    (st : State) b st' new cmd res :
  set key val expire_tm op_type st = (b, st') ->
  trace st' = new ++ trace st ->
  In (EvCommand cmd res) new ->
  match expire_tm with
  | None =>
      (op_type = kSetAnyhow /\
       cmd = Formatted "SET %b %b" [ArgBytes key; ArgBytes val]) \/
      (op_type = kSetIfNotExist /\
       cmd = Formatted "SET %b %b NX" [ArgBytes key; ArgBytes val]) \/
      (op_type = kSetIfExist /\
       cmd = Formatted "SET %b %b XX" [ArgBytes key; ArgBytes val])
  | Some e =>
      0 < remaining_seconds e (net st) /\
      ((op_type = kSetAnyhow /\
        cmd = Formatted "SET %b %b EX %lld"
                [ArgBytes key; ArgBytes val;
                 ArgNum (remaining_seconds e (net st))]) \/
       (op_type = kSetIfNotExist /\
        cmd = Formatted "SET %b %b EX %lld NX"
                [ArgBytes key; ArgBytes val;
                 ArgNum (remaining_seconds e (net st))]) \/
       (op_type = kSetIfExist /\
        cmd = Formatted "SET %b %b EX %lld XX"
                [ArgBytes key; ArgBytes val;
                 ArgNum (remaining_seconds e (net st))]))
  end.
Proof.
  intros Hrun Hnew Hin.
  assert (Hnothing : forall (m : M bool),
             quiet m -> m st = (b, st') -> False).
  { intros m Hq Hm; exact (quiet_sends_nothing m _ _ _ _ _ Hq Hm Hnew Hin). }
  assert (Hsent : forall c0,
             bind (run_command c0) (set_reply op_type) st = (b, st') ->
             cmd = c0).
  { intros c0 Hm.
    exact (sent_is_the_command c0 _ _ _ _ _ _ _
             (quiet_set_reply op_type) Hm Hnew Hin). }
  destruct expire_tm as [e|].
  - rewrite set_with_expiry in Hrun.
    destruct (remaining_seconds e (net st) <=? 0) eqn:Ettl.
    + exfalso; eapply Hnothing; [|exact Hrun]; auto with link.
    + apply Z.leb_gt in Ettl; split; [exact Ettl|].
      unfold set_send_ex, exec in Hrun.
      destruct (op_type =? kSetAnyhow) eqn:E0;
        [apply Z.eqb_eq in E0; left; split; [exact E0|now apply Hsent]|].
      destruct (op_type =? kSetIfNotExist) eqn:E1;
        [apply Z.eqb_eq in E1; right; left; split;
         [exact E1|now apply Hsent]|].
      destruct (op_type =? kSetIfExist) eqn:E2;
        [apply Z.eqb_eq in E2; right; right; split;
         [exact E2|now apply Hsent]|].
      exfalso; eapply Hnothing; [|exact Hrun]; auto 6 with link.
  - rewrite set_without_expiry in Hrun.
    unfold set_send, exec in Hrun.
    destruct (op_type =? kSetAnyhow) eqn:E0;
      [apply Z.eqb_eq in E0; left; split; [exact E0|now apply Hsent]|].
    destruct (op_type =? kSetIfNotExist) eqn:E1;
      [apply Z.eqb_eq in E1; right; left; split;
       [exact E1|now apply Hsent]|].
    destruct (op_type =? kSetIfExist) eqn:E2;
      [apply Z.eqb_eq in E2; right; right; split;
       [exact E2|now apply Hsent]|].
    exfalso; eapply Hnothing; [|exact Hrun]; auto 6 with link.
Qed.

(** *** A failed connection, as the caller sees it *)

Lemma run_command_connect_failure cmd (st : State) reply st1 new ip port res :
  run_command cmd st = (reply, st1) ->
  trace st1 = new ++ trace st ->
  In (EvConnect ip port res) new ->
  failed (EvConnect ip port res) = true ->
  reply = None /\
  m_errmsg (self st1) =
  match res with
  | Some c =>
      [EText "Failed to connect to "; EText (m_ip_port (self st));
       EText ": "; EText (errstr c); EText " ("; ENum (err c); EText ")"]
  | None =>
      [EText "Failed to connect to "; EText (m_ip_port (self st));
       EText ": Cannot allocate redisContext"]
  end.
Proof.
  destruct st as [[ip_port ip0 port0 ctx msg] w t].
  unfold_link; simpl.
  assert (Hcut : forall l : list event, l ++ t = new ++ t -> new = l).
  { intros l H; apply app_inv_tail in H; auto. }
  destruct ctx as [c|]; simpl.
  - destruct (redisCommand c cmd w) as [[[r|] c'] w']; simpl;
      intros H; inversion H; subst; clear H; simpl; intros Hnew Hin Hfail.
    + apply (Hcut [_]) in Hnew; subst new.
      destruct Hin as [Hin|[]]; discriminate.
    + apply (Hcut [_; _]) in Hnew; subst new.
      destruct Hin as [Hin|[Hin|[]]]; discriminate.
  - destruct (redisConnectWithTimeout ip0 port0 2 w) as [[c|] w0]; simpl.
    + destruct (err c =? 0) eqn:Ec; simpl.
      * destruct (redisCommand c cmd w0) as [[[r|] c'] w']; simpl;
          intros H; inversion H; subst; clear H; simpl; intros Hnew Hin Hfail.
        -- apply (Hcut [_; _]) in Hnew; subst new.
           destruct Hin as [Hin|[Hin|[]]]; try discriminate.
           inversion Hin; subst; simpl in Hfail.
           rewrite Ec in Hfail; discriminate.
        -- apply (Hcut [_; _; _]) in Hnew; subst new.
           destruct Hin as [Hin|[Hin|[Hin|[]]]]; try discriminate.
           inversion Hin; subst; simpl in Hfail.
           rewrite Ec in Hfail; discriminate.
      * intros H; inversion H; subst; clear H; simpl; intros Hnew Hin Hfail.
        apply (Hcut [_; _]) in Hnew; subst new.
        destruct Hin as [Hin|[Hin|[]]]; try discriminate.
        inversion Hin; subst; split; reflexivity.
    + intros H; inversion H; subst; clear H; simpl; intros Hnew Hin Hfail.
      apply (Hcut [_]) in Hnew; subst new.
      destruct Hin as [Hin|[]]; inversion Hin; subst; split; reflexivity.
Qed.

Lemma connect_failure_through_call {A} cmd
    (tail : option redisReply -> M A) (st : State) a st' new ip port res :
  (forall reply, quiet (tail reply)) ->
  (forall st0, snd (tail None st0) = st0) ->
  bind (run_command cmd) tail st = (a, st') ->
  trace st' = new ++ trace st ->
  In (EvConnect ip port res) new ->
  failed (EvConnect ip port res) = true ->
  a = fst (tail None st') /\
  m_errmsg (self st') =
  match res with
  | Some c =>
      [EText "Failed to connect to "; EText (m_ip_port (self st));
       EText ": "; EText (errstr c); EText " ("; ENum (err c); EText ")"]
  | None =>
      [EText "Failed to connect to "; EText (m_ip_port (self st));
       EText ": Cannot allocate redisContext"]
  end.
Proof.
  intros Hq Hnone Hrun Hnew Hin Hfail; unfold bind in Hrun.
  destruct (run_command cmd st) as [reply st1] eqn:E.
  pose proof (Hq reply st1) as Hsame; rewrite Hrun in Hsame; simpl in Hsame.
  destruct Hsame as (_ & Ht & _).
  rewrite Ht in Hnew.
  destruct (run_command_connect_failure _ _ _ _ _ _ _ _ E Hnew Hin Hfail)
    as (-> & Hmsg).
  specialize (Hnone st1); rewrite Hrun in Hnone; simpl in Hnone; subst st'.
  split; [now rewrite Hrun | exact Hmsg].
Qed.

(** X20.  When the connection attempt of a call fails, whichever public
    method it is, the call returns [false] and the caller finds the message
    of the connection failure: "Failed to connect to", the address, and
    either the transport's error text and code or "Cannot allocate
    redisContext". *)
Theorem failed_connect_is_reported (op : operation) (st : State) b st'
    new ip port res :
  perform op st = (b, st') ->
  trace st' = new ++ trace st ->
  In (EvConnect ip port res) new ->
  failed (EvConnect ip port res) = true ->
  b = false /\
  m_errmsg (self st') =
  match res with
  | Some c =>
      [EText "Failed to connect to "; EText (m_ip_port (self st));
       EText ": "; EText (errstr c); EText " ("; ENum (err c); EText ")"]
  | None =>
      [EText "Failed to connect to "; EText (m_ip_port (self st));
       EText ": Cannot allocate redisContext"]
  end.
Proof.
  intros Hrun Hnew Hin Hfail.
  destruct op; simpl in Hrun;
    try (apply verdict_inv in Hrun; destruct Hrun as [out Hrun]).
  all: try (unfold select_db, expire, expire_at, ttl, get, sadd, scard,
              sdiff, sdiff_store, sinter, sinter_store, sismember, hget, hset,
              exec, execv, execm in Hrun;
            eapply connect_failure_through_call in Hrun;
            [| quiet_tail | intros ?; reflexivity
             | exact Hnew | exact Hin | exact Hfail];
            destruct Hrun as [Hout Hmsg]; simpl in Hout;
            split; [congruence | exact Hmsg]).
  (* [set] *)
  assert (Hnothing : forall (m : M bool),
             quiet m -> m st = (b, st') -> False).
  { intros m Hq Hm; exact (quiet_sends_nothing m _ _ _ _ _ Hq Hm Hnew Hin). }
  assert (Hcall : forall cmd,
             bind (run_command cmd) (set_reply op_type) st = (b, st') ->
             b = false /\
             m_errmsg (self st') =
             match res with
             | Some c =>
                 [EText "Failed to connect to "; EText (m_ip_port (self st));
                  EText ": "; EText (errstr c); EText " ("; ENum (err c);
                  EText ")"]
             | None =>
                 [EText "Failed to connect to "; EText (m_ip_port (self st));
                  EText ": Cannot allocate redisContext"]
             end).
  { intros cmd Hm.
    eapply connect_failure_through_call in Hm;
      [| exact (quiet_set_reply op_type) | intros ?; reflexivity
       | exact Hnew | exact Hin | exact Hfail].
    exact Hm. }
  destruct expire_tm as [e|].
  - rewrite set_with_expiry in Hrun.
    destruct (remaining_seconds e (net st) <=? 0).
    + exfalso; eapply Hnothing; [|exact Hrun]; auto with link.
    + destruct (set_send_ex_shape key val (remaining_seconds e (net st))
                                  op_type) as [[_ [cmd E]]|[_ E]];
        rewrite E in Hrun; [exact (Hcall _ Hrun)|].
      exfalso; eapply Hnothing; [|exact Hrun]; auto 6 with link.
  - rewrite set_without_expiry in Hrun.
    destruct (set_send_shape key val op_type) as [[_ [cmd E]]|[_ E]];
      rewrite E in Hrun; [exact (Hcall _ Hrun)|].
    exfalso; eapply Hnothing; [|exact Hrun]; auto 6 with link.
Qed.

End Properties.

(** C10.  For [get], [ttl], [scard], [sismember], [sadd], [sdiff],
    [sdiff_store], [sinter] and [sinter_store]: whenever the call returns
    [false], every reference or pointer result is as it was on entry.
    [hget] is the exception: it can fail after it has already written some
    of the fields. *)
Theorem failed_calls_keep_outputs :
  (forall (Net : Type) (transport : Hiredis Net),
      (forall key val key_exists,
          keeps_on_false (Net:=Net) (get key val key_exists)
                         (val, key_exists)) /\
      (forall key ttl_, keeps_on_false (Net:=Net) (ttl key ttl_) ttl_) /\
      (forall key cnt, keeps_on_false (Net:=Net) (scard key cnt) cnt) /\
      (forall key val is_member,
          keeps_on_false (Net:=Net) (sismember key val is_member)
                         is_member) /\
      (forall key vals cnt,
          keeps_on_false (Net:=Net) (sadd key vals cnt) cnt) /\
      (forall keys result,
          keeps_on_false (Net:=Net) (sdiff keys result) result) /\
      (forall dest keys cnt,
          keeps_on_false (Net:=Net) (sdiff_store dest keys cnt) cnt) /\
      (forall keys result,
          keeps_on_false (Net:=Net) (sinter keys result) result) /\
      (forall dest keys cnt,
          keeps_on_false (Net:=Net) (sinter_store dest keys cnt) cnt)) /\
  (exists (st : State script) key fields,
      fst (fst (hget key fields st)) = false /\
      snd (fst (hget key fields st)) <> fields).
Proof.
  split.
  - intros Net transport.
    repeat split; intros;
      first [ apply keeps_get
            | apply keeps_after_check; intros; reflexivity ].
  - exists (connected_client
              (answering [Some (array_reply [string_reply "1";
                                             integer_reply 5])])),
      "h", [("a", "old"); ("b", "old")].
    split; [reflexivity|vm_compute; discriminate].
Qed.

(* ================================================================== *)
(** ** The client at work on the scripted transport *)

(** C5, at an input where the code departs from it.  The reply to
    [HMGET h a] is an array whose only element is the error "ERR boom".
    [hget] returns [false], but the message it records is read from the
    array reply, whose [str] is null, and not from the element: the text
    "ERR boom" is lost. *)
Theorem hget_error_element_text_lost :
  hget "h" [("a", "")]
       (connected_client (answering [Some (array_reply [error_reply "ERR boom"])]))
  = ((false, [("a", "")]),
     mkState
       (mkClient "127.0.0.1:6379" "127.0.0.1" 6379 (Some ok_context)
                 [ECStr None])
       (answering [])
       [EvCommand (Argv ["HMGET"; "h"; "a"])
                  (Some (array_reply [error_reply "ERR boom"]));
        EvConnect "127.0.0.1" 6379 (Some ok_context)])
  /\ [ECStr None] <> [of_char_ptr (str (error_reply "ERR boom"))].
Proof. split; [reflexivity | discriminate]. Qed.

(** C1 as the design document words it, refuted: the address
    "127.0.0.1:6379" is valid, and when the constructor returns the
    transport has been asked to connect to 127.0.0.1, port 6379. *)
Lemma constructor_without_connect_counterexample :
  RedisClient_new sample_atoi "127.0.0.1:6379" listening
  = inr (connected_client (answering []))
  /\ trace (connected_client (answering []))
     = [EvConnect "127.0.0.1" 6379 (Some ok_context)]
  /\ connect_attempts (trace (connected_client (answering []))) <> 0%nat.
Proof. repeat split; discriminate. Qed.

Lemma constructor_connects_once_witness :
  RedisClient_new sample_atoi "127.0.0.1:6379" listening
  = inr (connected_client (answering []))
  /\ connect_attempts (trace (connected_client (answering []))) = 1%nat.
Proof.
  assert (H : RedisClient_new sample_atoi "127.0.0.1:6379" listening
              = inr (connected_client (answering []))) by reflexivity.
  split; [exact H|].
  apply (constructor_connects_once sample_atoi "127.0.0.1:6379" listening
           (connected_client (answering [])) H).
Defined.

(** C6 as the design document words it, refuted for [expire]: an expiry
    with no time left has a non-positive remaining time, yet [expire]
    called with that number sends [EXPIRE k 0] and returns [true] when the
    server answers 1. *)
Lemma expire_validates_nothing_counterexample :
  remaining_seconds (ExpireAfter 0) (answering [Some (integer_reply 1)]) <= 0
  /\ expire "k"
       (remaining_seconds (ExpireAfter 0) (answering [Some (integer_reply 1)]))
       (connected_client (answering [Some (integer_reply 1)]))
     = (true,
        mkState
          (mkClient "127.0.0.1:6379" "127.0.0.1" 6379 (Some ok_context) [])
          (answering [])
          [EvCommand (Formatted "EXPIRE %b %u" [ArgBytes "k"; ArgNum 0])
                     (Some (integer_reply 1));
           EvConnect "127.0.0.1" 6379 (Some ok_context)]).
Proof. split; [simpl; lia | reflexivity]. Qed.

Lemma elapsed_expiry_rejected_by_set_only_witness :
  remaining_seconds (ExpireAtInstant 100) (mkScript [] [] 250) <= 0
  /\ fst (set "k" "v" (Some (ExpireAtInstant 100)) kSetAnyhow
              (connected_client (mkScript [] [] 250))) = false
  /\ trace (snd (set "k" "v" (Some (ExpireAtInstant 100)) kSetAnyhow
                     (connected_client (mkScript [] [] 250))))
     = trace (connected_client (mkScript [] [] 250)).
Proof.
  assert (H : remaining_seconds (ExpireAtInstant 100) (mkScript [] [] 250) <= 0)
    by (simpl; lia).
  split; [exact H|].
  destruct (proj1 (@elapsed_expiry_rejected_by_set_only
                     script scripted_transport scripted_expiry)
              "k" "v" (ExpireAtInstant 100) kSetAnyhow
              (connected_client (mkScript [] [] 250)) _ _ H
              (surjective_pairing _))
    as (Hb & Hlink & _).
  split; [exact Hb | apply Hlink].
Defined.

(** C8 as the design document words it, refuted: with an operation type
    that does not exist and an expiry with no time left, the message is
    the one of the expiry check. *)
Lemma unsupported_op_type_message_counterexample :
  ~ recognised 7
  /\ set "k" "v" (Some (ExpireAfter 0)) 7 (connected_client (answering []))
     = (false,
        mkState
          (mkClient "127.0.0.1:6379" "127.0.0.1" 6379 (Some ok_context)
                    [EText "Invalid expire time"])
          (answering [])
          [EvConnect "127.0.0.1" 6379 (Some ok_context)])
  /\ [EText "Invalid expire time"] <> [EText "Unsupported op_type "; ENum 7].
Proof.
  split; [|split; [reflexivity | discriminate]].
  unfold recognised, kSetAnyhow, kSetIfNotExist, kSetIfExist; lia.
Qed.

Lemma unsupported_op_type_sends_nothing_witness :
  ~ recognised 7
  /\ fst (set "k" "v" None 7 (connected_client (answering []))) = false
  /\ m_errmsg (self (snd (set "k" "v" None 7
                              (connected_client (answering [])))))
     = [EText "Unsupported op_type "; ENum 7].
Proof.
  assert (H : ~ recognised 7)
    by (unfold recognised, kSetAnyhow, kSetIfNotExist, kSetIfExist; lia).
  split; [exact H|].
  destruct (unsupported_op_type_sends_nothing
              "k" "v" None 7 (connected_client (answering [])) _ _ H
              (surjective_pairing _))
    as (Hb & _ & Hmsg).
  split; [exact Hb | exact Hmsg].
Defined.

Lemma transport_failure_releases_handle_witness :
  (perform (OpGet "k" "" None) (connected_client (flaky (string_reply "v")))
   = (false,
      snd (perform (OpGet "k" "" None)
                   (connected_client (flaky (string_reply "v")))))
   /\ m_context
        (self (snd (perform (OpGet "k" "" None)
                            (connected_client (flaky (string_reply "v"))))))
      = None
   /\ exists later,
       trace (snd (perform (OpGet "k" "" None)
                     (snd (perform (OpGet "k" "" None)
                             (connected_client (flaky (string_reply "v")))))))
       = later ++ EvConnect "127.0.0.1" 6379 (Some ok_context)
               :: trace (snd (perform (OpGet "k" "" None)
                                (connected_client
                                   (flaky (string_reply "v"))))))
  /\ (failed (EvConnect "127.0.0.1" 6379
                        (connect_answer (idle_client refusing))) = true
      /\ fst (perform (OpScard "s" 7) (idle_client refusing)) = false
      /\ m_context (self (snd (perform (OpScard "s" 7)
                                       (idle_client refusing)))) = None).
Proof.
  split.
  - assert (H : perform (OpGet "k" "" None)
                  (connected_client (flaky (string_reply "v")))
                = (false,
                   snd (perform (OpGet "k" "" None)
                          (connected_client (flaky (string_reply "v"))))))
      by reflexivity.
    destruct (@transport_failure_releases_handle
                script scripted_transport scripted_expiry _ _ _ _ H)
      as (new & _ & _ & Hfailure & Hlive).
    destruct (Hlive (fun no : False => no)) as (Hdead & _ & _).
    assert (Hfail : existsb failed new = true)
      by (apply (Hdead ok_context eq_refl); intros cmd; reflexivity).
    destruct (Hfailure Hfail) as (_ & Hgone & _ & Hnext).
    split; [exact H|]; split; [exact Hgone|].
    exact (Hnext (OpGet "k" "" None) _ _ (surjective_pairing _)
                 (fun no : False => no)).
  - assert (Hrefused : failed (EvConnect "127.0.0.1" 6379
                                 (connect_answer (idle_client refusing)))
                       = true) by reflexivity.
    destruct (@transport_failure_releases_handle
                script scripted_transport scripted_expiry
                (OpScard "s" 7) (idle_client refusing) _ _
                (surjective_pairing _))
      as (new & _ & _ & Hfailure & Hlive).
    destruct (Hlive (fun no : False => no)) as (_ & _ & Hconnect).
    destruct (Hfailure (Hconnect eq_refl Hrefused)) as (Hb & Hgone & _).
    split; [exact Hrefused|]; split; [exact Hb | exact Hgone].
Defined.

Lemma set_classifies_reply_witness :
  recognised kSetIfNotExist
  /\ replied (connected_client (answering [Some nil_reply]))
             (snd (set "k" "v" None kSetIfNotExist
                       (connected_client (answering [Some nil_reply]))))
             nil_reply
  /\ fst (set "k" "v" None kSetIfNotExist
              (connected_client (answering [Some nil_reply]))) = false
  /\ m_errmsg (self (snd (set "k" "v" None kSetIfNotExist
                              (connected_client (answering [Some nil_reply])))))
     = [EText "Key already exist"].
Proof.
  assert (Hop : recognised kSetIfNotExist) by (right; left; reflexivity).
  assert (Hr : replied (connected_client (answering [Some nil_reply]))
                 (snd (set "k" "v" None kSetIfNotExist
                           (connected_client (answering [Some nil_reply]))))
                 nil_reply).
  { exists (Formatted "SET %b %b NX" [ArgBytes "k"; ArgBytes "v"]), [].
    reflexivity. }
  split; [exact Hop|]; split; [exact Hr|].
  destruct (@set_classifies_reply
              script scripted_transport scripted_expiry
              "k" "v" None kSetIfNotExist _ _ _ nil_reply Hop
              (surjective_pairing _) Hr)
    as (_ & Hnil & _).
  destruct (Hnil eq_refl) as (Hb & _ & Hmsg & _).
  split; [exact Hb | exact (Hmsg eq_refl)].
Defined.

Lemma get_classifies_reply_witness :
  replied (connected_client (answering [Some (string_reply binary_value)]))
          (snd (get "k" "old" (Some false)
                    (connected_client
                       (answering [Some (string_reply binary_value)]))))
          (string_reply binary_value)
  /\ fst (get "k" "old" (Some false)
              (connected_client (answering [Some (string_reply binary_value)])))
     = (true, (binary_value, Some true)).
Proof.
  assert (Hr : replied
                 (connected_client (answering [Some (string_reply binary_value)]))
                 (snd (get "k" "old" (Some false)
                           (connected_client
                              (answering [Some (string_reply binary_value)]))))
                 (string_reply binary_value)).
  { exists (Formatted "GET %b" [ArgBytes "k"]), []; reflexivity. }
  split; [exact Hr|].
  destruct (@get_classifies_reply
              script scripted_transport
              "k" "old" (Some false) _ _ _ _ (surjective_pairing _) Hr)
    as (Hstr & _).
  exact (Hstr eq_refl binary_value eq_refl).
Defined.

Lemma expire_true_iff_integer_one_witness :
  (answers (connected_client (answering [Some (integer_reply 1)]))
           (Formatted "EXPIRE %b %u" [ArgBytes "k"; ArgNum 10])
           (integer_reply 1)
   /\ fst (expire "k" 10
                  (connected_client (answering [Some (integer_reply 1)])))
      = true)
  /\ (answers (idle_client (mkScript [Some ok_context]
                                     [Some (integer_reply 1)] 0))
              (Formatted "EXPIREAT %b %lld" [ArgBytes "k"; ArgNum 1700000000])
              (integer_reply 1)
      /\ fst (expire_at "k" 1700000000
                        (idle_client (mkScript [Some ok_context]
                                               [Some (integer_reply 1)] 0)))
         = true)
  /\ (answers (connected_client (answering [Some (integer_reply 0)]))
              (Formatted "EXPIREAT %b %lld" [ArgBytes "k"; ArgNum 1700000000])
              (integer_reply 0)
      /\ fst (expire_at "k" 1700000000
                        (connected_client (answering [Some (integer_reply 0)])))
         = false).
Proof.
  assert (A1 : answers (connected_client (answering [Some (integer_reply 1)]))
                 (Formatted "EXPIRE %b %u" [ArgBytes "k"; ArgNum 10])
                 (integer_reply 1)) by reflexivity.
  assert (A2 : answers (idle_client (mkScript [Some ok_context]
                                              [Some (integer_reply 1)] 0))
                 (Formatted "EXPIREAT %b %lld"
                            [ArgBytes "k"; ArgNum 1700000000])
                 (integer_reply 1)) by (split; reflexivity).
  assert (A3 : answers (connected_client (answering [Some (integer_reply 0)]))
                 (Formatted "EXPIREAT %b %lld"
                            [ArgBytes "k"; ArgNum 1700000000])
                 (integer_reply 0)) by reflexivity.
  split; [|split].
  - split; [exact A1|].
    destruct (proj1 (@expire_true_iff_integer_one script scripted_transport)
                "k" 10) as [Hlive Hverdict].
    destruct (Hlive (connected_client (answering [Some (integer_reply 1)]))
                    _ _ (surjective_pairing _)) as [Hans _].
    destruct (Hverdict (connected_client (answering [Some (integer_reply 1)]))
                       _ _ (surjective_pairing _)) as [[_ Hback] _].
    apply Hback; exists (integer_reply 1); split; [exact (Hans _ A1)|].
    split; reflexivity.
  - split; [exact A2|].
    destruct (proj2 (@expire_true_iff_integer_one script scripted_transport)
                "k" 1700000000) as [Hlive Hverdict].
    destruct (Hlive (idle_client (mkScript [Some ok_context]
                                           [Some (integer_reply 1)] 0))
                    _ _ (surjective_pairing _)) as [Hans _].
    destruct (Hverdict (idle_client (mkScript [Some ok_context]
                                              [Some (integer_reply 1)] 0))
                       _ _ (surjective_pairing _)) as [[_ Hback] _].
    apply Hback; exists (integer_reply 1); split; [exact (Hans _ A2)|].
    split; reflexivity.
  - split; [exact A3|].
    destruct (proj2 (@expire_true_iff_integer_one script scripted_transport)
                "k" 1700000000) as [Hlive Hverdict].
    destruct (Hlive (connected_client (answering [Some (integer_reply 0)]))
                    _ _ (surjective_pairing _)) as [Hans _].
    destruct (Hverdict (connected_client (answering [Some (integer_reply 0)]))
                       _ _ (surjective_pairing _)) as [_ Hcases].
    destruct (Hcases _ (Hans _ A3)) as (Hzero & _).
    exact (proj1 (Hzero eq_refl eq_refl)).
Defined.

Lemma hget_cuts_value_at_nul_witness :
  hget "h" [("a", "old")]
       (connected_client
          (answering [Some (array_reply [string_reply binary_value])]))
  = ((true, [("a", "ab")]),
     mkState
       (mkClient "127.0.0.1:6379" "127.0.0.1" 6379 (Some ok_context) [])
       (answering [])
       [EvCommand (Argv ["HMGET"; "h"; "a"])
                  (Some (array_reply [string_reply binary_value]));
        EvConnect "127.0.0.1" 6379 (Some ok_context)])
  /\ nul_free "ab" = true
  /\ nth_error [("a", "ab")] 0 = Some ("a", "ab").
Proof.
  assert (H : hget "h" [("a", "old")]
                (connected_client
                   (answering [Some (array_reply [string_reply binary_value])]))
              = ((true, [("a", "ab")]),
                 mkState
                   (mkClient "127.0.0.1:6379" "127.0.0.1" 6379
                             (Some ok_context) [])
                   (answering [])
                   [EvCommand (Argv ["HMGET"; "h"; "a"])
                      (Some (array_reply [string_reply binary_value]));
                    EvConnect "127.0.0.1" 6379 (Some ok_context)]))
    by reflexivity.
  split; [exact H|]; split; [reflexivity|].
  refine (proj1 (@hget_cuts_value_at_nul
                   script scripted_transport
                   "h" [("a", "old")] _ _ _
                   (array_reply [string_reply binary_value])
                   0%nat "a" "old" (string_reply binary_value) "ab" "c"
                   H _ eq_refl eq_refl eq_refl eq_refl eq_refl)).
  exists (Argv ["HMGET"; "h"; "a"]), []; reflexivity.
Defined.

Lemma failed_calls_keep_outputs_witness :
  fst (fst (get "k" "old" (Some true)
                (connected_client (answering [Some (error_reply "ERR")]))))
  = false
  /\ snd (fst (get "k" "old" (Some true)
                   (connected_client (answering [Some (error_reply "ERR")]))))
     = ("old", Some true).
Proof.
  split; [reflexivity|].
  apply (proj1 (proj1 failed_calls_keep_outputs script scripted_transport)).
  reflexivity.
Defined.

(* ================================================================== *)
(** ** The further properties on the scripted transport *)

Lemma constructor_rejects_witness :
  (lacks ":" "localhost" = true
   /\ RedisClient_new sample_atoi "localhost" listening
      = inl "Invalid ip_port [localhost]")
  /\ (lacks ":" "70000" = true
      /\ ~ (0 < sample_atoi "70000" <= 65535)
      /\ RedisClient_new sample_atoi "redis:70000" listening
         = inl "Invalid ip_port [redis:70000]").
Proof.
  assert (H70000 : ~ (0 < sample_atoi "70000" <= 65535))
    by (vm_compute; intros [_ H]; apply H; reflexivity).
  split.
  - split; [reflexivity|].
    exact (proj1 (constructor_rejects sample_atoi listening)
             "localhost" eq_refl).
  - split; [reflexivity|]; split; [exact H70000|].
    refine (proj2 (constructor_rejects sample_atoi listening)
              "redis" "70000" eq_refl _ H70000).
    discriminate.
Defined.

Lemma constructor_splits_at_last_colon_witness :
  lacks ":" "6380" = true
  /\ 0 < sample_atoi "6380" <= 65535
  /\ exists st,
      RedisClient_new sample_atoi "::1:6380" listening = inr st /\
      m_ip (self st) = "::1" /\ m_port (self st) = 6380.
Proof.
  assert (Hport : 0 < sample_atoi "6380" <= 65535) by (vm_compute; split; congruence).
  split; [reflexivity|]; split; [exact Hport|].
  destruct (constructor_splits_at_last_colon sample_atoi "::1" "6380"
              listening eq_refl (or_intror Hport))
    as (st & Hnew & _ & Hip & Hp & _).
  exists st; split; [exact Hnew|]; split; [exact Hip | exact Hp].
Defined.

Lemma alloc_context_outcome_witness :
  alloc_context (idle_client refusing)
  = (false,
     mkState
       (mkClient "127.0.0.1:6379" "127.0.0.1" 6379 None
          [EText "Failed to connect to "; EText "127.0.0.1:6379"; EText ": ";
           EText "Connection refused"; EText " ("; ENum 1; EText ")"])
       (answering [])
       [EvFree; EvConnect "127.0.0.1" 6379 (Some (mkContext 1 "Connection refused"))])
  /\ (false = true <->
      m_context (self (snd (alloc_context (idle_client refusing)))) <> None).
Proof.
  assert (H : alloc_context (idle_client refusing)
              = (false, snd (alloc_context (idle_client refusing))))
    by reflexivity.
  split; [reflexivity|].
  destruct (alloc_context_outcome _ _ _ H) as (res & _ & Hiff & _).
  exact Hiff.
Defined.

Lemma call_uses_transport_sparingly_witness :
  perform (OpTtl "k" 0) (idle_client (mkScript [Some ok_context]
                                               [Some (integer_reply 42)] 0))
  = (true,
     snd (perform (OpTtl "k" 0)
                  (idle_client (mkScript [Some ok_context]
                                         [Some (integer_reply 42)] 0))))
  /\ exists new,
      trace (snd (perform (OpTtl "k" 0)
                    (idle_client (mkScript [Some ok_context]
                                           [Some (integer_reply 42)] 0))))
      = new ++ [] /\
      (connect_attempts new <= 1)%nat /\ (commands_sent new <= 1)%nat.
Proof.
  assert (H : perform (OpTtl "k" 0)
                (idle_client (mkScript [Some ok_context]
                                       [Some (integer_reply 42)] 0))
              = (true,
                 snd (perform (OpTtl "k" 0)
                        (idle_client (mkScript [Some ok_context]
                                               [Some (integer_reply 42)] 0)))))
    by reflexivity.
  split; [exact H|].
  destruct (@call_uses_transport_sparingly
              script scripted_transport scripted_expiry _ _ _ _ H)
    as (new & Hnew & Hc & Hs & _).
  exists new; split; [exact Hnew|]; split; assumption.
Defined.

Lemma reachable_link_protocol_witness :
  reachable sample_atoi (connected_client (answering []))
  /\ link_phase (trace (connected_client (answering []))) = Some Ready.
Proof.
  assert (H : @reachable script scripted_transport scripted_expiry
                sample_atoi (connected_client (answering []))).
  { apply (reachable_new sample_atoi "127.0.0.1:6379" listening).
    reflexivity. }
  split; [exact H|].
  exact (reachable_link_protocol sample_atoi _ H).
Defined.

Lemma successful_call_keeps_last_error_witness :
  perform (OpSelectDb 1) (stale_client (answering [Some (status_reply "OK")]))
  = (true,
     snd (perform (OpSelectDb 1)
                  (stale_client (answering [Some (status_reply "OK")]))))
  /\ m_errmsg (self (snd (perform (OpSelectDb 1)
                             (stale_client
                                (answering [Some (status_reply "OK")])))))
     = [EText "Unexpected reply type "; ENum 3].
Proof.
  assert (H : perform (OpSelectDb 1)
                (stale_client (answering [Some (status_reply "OK")]))
              = (true,
                 snd (perform (OpSelectDb 1)
                        (stale_client (answering [Some (status_reply "OK")])))))
    by reflexivity.
  split; [exact H|].
  exact (@successful_call_keeps_last_error
           script scripted_transport scripted_expiry _ _ _ H).
Defined.

Lemma reachable_address_witness :
  reachable sample_atoi (connected_client (answering []))
  /\ exists pos,
      find_last_of "127.0.0.1:6379" ":" = Some pos /\
      "127.0.0.1" = substring 0 pos "127.0.0.1:6379" /\
      0 < 6379 <= 65535.
Proof.
  assert (H : @reachable script scripted_transport scripted_expiry
                sample_atoi (connected_client (answering []))).
  { apply (reachable_new sample_atoi "127.0.0.1:6379" listening).
    reflexivity. }
  split; [exact H|].
  exact (reachable_address sample_atoi _ H).
Defined.

Lemma sismember_nonzero_is_member_witness :
  replied (connected_client (answering [Some (integer_reply 1)]))
          (snd (sismember "s" "x" false
                          (connected_client (answering [Some (integer_reply 1)]))))
          (integer_reply 1)
  /\ fst (sismember "s" "x" false
                    (connected_client (answering [Some (integer_reply 1)])))
     = (true, true).
Proof.
  assert (Hr : replied
                 (connected_client (answering [Some (integer_reply 1)]))
                 (snd (sismember "s" "x" false
                         (connected_client
                            (answering [Some (integer_reply 1)]))))
                 (integer_reply 1)).
  { exists (Formatted "SISMEMBER %b %b" [ArgBytes "s"; ArgBytes "x"]), [].
    reflexivity. }
  split; [exact Hr|].
  destruct (@sismember_nonzero_is_member script scripted_transport
              "s" "x" false _ _ _ _ (surjective_pairing _) Hr)
    as (Hok & Hmember).
  apply injective_projections; simpl.
  - apply Hok; reflexivity.
  - apply (Hmember eq_refl); discriminate.
Defined.

Lemma hget_arity_mismatch_witness :
  replied (connected_client (answering [Some (array_reply [string_reply "1"])]))
          (snd (hget "h" [("a", "x"); ("b", "y")]
                     (connected_client
                        (answering [Some (array_reply [string_reply "1"])]))))
          (array_reply [string_reply "1"])
  /\ fst (hget "h" [("a", "x"); ("b", "y")]
               (connected_client
                  (answering [Some (array_reply [string_reply "1"])])))
     = (false, [("a", "x"); ("b", "y")]).
Proof.
  assert (Hr : replied
                 (connected_client
                    (answering [Some (array_reply [string_reply "1"])]))
                 (snd (hget "h" [("a", "x"); ("b", "y")]
                         (connected_client
                            (answering [Some (array_reply
                                                [string_reply "1"])]))))
                 (array_reply [string_reply "1"])).
  { exists (Argv ["HMGET"; "h"; "a"; "b"]), []; reflexivity. }
  split; [exact Hr|].
  refine (proj1 (@hget_arity_mismatch script scripted_transport
                   "h" [("a", "x"); ("b", "y")] _ _ _ _
                   (surjective_pairing _) Hr eq_refl _)).
  discriminate.
Defined.

Lemma hget_fills_fields_in_order_witness :
  replied (connected_client
             (answering [Some (array_reply [string_reply "1"; nil_reply])]))
          (snd (hget "h" [("a", "x"); ("c", "y")]
                     (connected_client
                        (answering [Some (array_reply [string_reply "1";
                                                       nil_reply])]))))
          (array_reply [string_reply "1"; nil_reply])
  /\ fst (fst (hget "h" [("a", "x"); ("c", "y")]
                    (connected_client
                       (answering [Some (array_reply [string_reply "1";
                                                      nil_reply])]))))
     = true.
Proof.
  assert (Hr : replied
                 (connected_client
                    (answering [Some (array_reply [string_reply "1";
                                                   nil_reply])]))
                 (snd (hget "h" [("a", "x"); ("c", "y")]
                         (connected_client
                            (answering [Some (array_reply
                                                [string_reply "1";
                                                 nil_reply])]))))
                 (array_reply [string_reply "1"; nil_reply])).
  { exists (Argv ["HMGET"; "h"; "a"; "c"]), []; reflexivity. }
  split; [exact Hr|].
  apply (proj1 (@hget_fills_fields_in_order script scripted_transport
                  "h" [("a", "x"); ("c", "y")] _ _ _ _
                  (surjective_pairing _) Hr)).
  split; [reflexivity|]; split; [reflexivity|].
  constructor; [left; reflexivity|].
  constructor; [right; reflexivity|].
  constructor.
Defined.

Lemma hget_stops_at_first_bad_element_witness :
  hget "h" [("a", "old"); ("b", "old"); ("c", "old")]
       (connected_client
          (answering [Some (array_reply [string_reply "1"; integer_reply 5;
                                         string_reply "3"])]))
  = ((false, [("a", "1"); ("b", "old"); ("c", "old")]),
     snd (hget "h" [("a", "old"); ("b", "old"); ("c", "old")]
               (connected_client
                  (answering [Some (array_reply [string_reply "1";
                                                 integer_reply 5;
                                                 string_reply "3"])]))))
  /\ exists i e,
      nth_error [string_reply "1"; integer_reply 5; string_reply "3"] i
      = Some e /\
      type e <> REDIS_REPLY_STRING /\ type e <> REDIS_REPLY_NIL /\
      skipn i [("a", "1"); ("b", "old"); ("c", "old")]
      = skipn i [("a", "old"); ("b", "old"); ("c", "old")].
Proof.
  assert (H : hget "h" [("a", "old"); ("b", "old"); ("c", "old")]
                (connected_client
                   (answering [Some (array_reply [string_reply "1";
                                                  integer_reply 5;
                                                  string_reply "3"])]))
              = ((false, [("a", "1"); ("b", "old"); ("c", "old")]),
                 snd (hget "h" [("a", "old"); ("b", "old"); ("c", "old")]
                        (connected_client
                           (answering [Some (array_reply
                                               [string_reply "1";
                                                integer_reply 5;
                                                string_reply "3"])])))))
    by reflexivity.
  split; [exact H|].
  destruct (@hget_stops_at_first_bad_element script scripted_transport
              _ _ _ _ _
              (array_reply [string_reply "1"; integer_reply 5;
                            string_reply "3"])
              H
              (ex_intro _ (Argv ["HMGET"; "h"; "a"; "b"; "c"])
                        (ex_intro _ [] eq_refl))
              eq_refl eq_refl)
    as (i & e & He & Hns & Hnn & _ & Hskip & _).
  exists i, e; repeat split; assumption.
Defined.

Lemma get_recovers_on_the_next_call_witness :
  redisCommand ok_context (Formatted "GET %b" [ArgBytes "k"])
               (flaky (string_reply "v"))
  = (None, connection_lost, mkScript [Some ok_context]
                                     [Some (string_reply "v")] 0)
  /\ exists st1 st2,
      get "k" "" None (connected_client (flaky (string_reply "v")))
      = ((false, ("", None)), st1) /\
      get "k" "" None st1 = ((true, ("v", None)), st2).
Proof.
  split; [reflexivity|].
  destruct (@get_recovers_on_the_next_call script scripted_transport
              "k" "" None (connected_client (flaky (string_reply "v")))
              ok_context connection_lost
              (mkScript [Some ok_context] [Some (string_reply "v")] 0)
              ok_context (mkScript [] [Some (string_reply "v")] 0)
              (string_reply "v") ok_context (mkScript [] [] 0) "v"
              eq_refl eq_refl eq_refl eq_refl eq_refl eq_refl eq_refl)
    as (st1 & st2 & Hfirst & _ & _ & _ & Hsecond & _).
  exists st1, st2; split; [exact Hfirst | exact Hsecond].
Defined.

Lemma set_sends_the_variant_asked_for_witness :
  set "k" "v" (Some (ExpireAfter 30)) kSetIfNotExist
      (connected_client (answering [Some (status_reply "OK")]))
  = (true,
     mkState
       (mkClient "127.0.0.1:6379" "127.0.0.1" 6379 (Some ok_context) [])
       (answering [])
       ([EvCommand (Formatted "SET %b %b EX %lld NX"
                      [ArgBytes "k"; ArgBytes "v"; ArgNum 30])
                   (Some (status_reply "OK"))]
          ++ [EvConnect "127.0.0.1" 6379 (Some ok_context)]))
  /\ 0 < 30.
Proof.
  assert (H : set "k" "v" (Some (ExpireAfter 30)) kSetIfNotExist
                (connected_client (answering [Some (status_reply "OK")]))
              = (true,
                 mkState
                   (mkClient "127.0.0.1:6379" "127.0.0.1" 6379
                             (Some ok_context) [])
                   (answering [])
                   ([EvCommand (Formatted "SET %b %b EX %lld NX"
                                  [ArgBytes "k"; ArgBytes "v"; ArgNum 30])
                               (Some (status_reply "OK"))]
                      ++ [EvConnect "127.0.0.1" 6379 (Some ok_context)])))
    by reflexivity.
  split; [exact H|].
  exact (proj1 (@set_sends_the_variant_asked_for
                  script scripted_transport scripted_expiry
                  "k" "v" (Some (ExpireAfter 30)) kSetIfNotExist
                  _ _ _ _ _ _ H eq_refl (or_introl eq_refl))).
Defined.

Lemma failed_connect_is_reported_witness :
  perform (OpScard "s" 7) (idle_client refusing)
  = (false,
     mkState
       (mkClient "127.0.0.1:6379" "127.0.0.1" 6379 None
          [EText "Failed to connect to "; EText "127.0.0.1:6379"; EText ": ";
           EText "Connection refused"; EText " ("; ENum 1; EText ")"])
       (answering [])
       ([EvFree;
         EvConnect "127.0.0.1" 6379 (Some (mkContext 1 "Connection refused"))]
          ++ []))
  /\ failed (EvConnect "127.0.0.1" 6379
                       (Some (mkContext 1 "Connection refused"))) = true.
Proof.
  assert (H : perform (OpScard "s" 7) (idle_client refusing)
              = (false,
                 mkState
                   (mkClient "127.0.0.1:6379" "127.0.0.1" 6379 None
                      [EText "Failed to connect to "; EText "127.0.0.1:6379";
                       EText ": "; EText "Connection refused"; EText " (";
                       ENum 1; EText ")"])
                   (answering [])
                   ([EvFree;
                     EvConnect "127.0.0.1" 6379
                               (Some (mkContext 1 "Connection refused"))]
                      ++ [])))
    by reflexivity.
  split; [exact H|].
  assert (Hfail : failed (EvConnect "127.0.0.1" 6379
                            (Some (mkContext 1 "Connection refused"))) = true)
    by reflexivity.
  destruct (@failed_connect_is_reported
              script scripted_transport scripted_expiry
              _ _ _ _ _ _ _ _ H eq_refl (or_intror (or_introl eq_refl)) Hfail)
    as (_ & _).
  exact Hfail.
Defined.

Lemma integer_handed_back_as_is_witness :
  (answers (connected_client (answering [Some (integer_reply (-2))]))
           (Formatted "TTL %b" [ArgBytes "k"]) (integer_reply (-2))
   /\ fst (ttl "k" 0
               (connected_client (answering [Some (integer_reply (-2))])))
      = (true, -2))
  /\ (answers (idle_client (mkScript [Some ok_context]
                                     [Some (integer_reply 3)] 0))
              (Formatted "SCARD %b" [ArgBytes "s"]) (integer_reply 3)
      /\ fst (scard "s" 0
                    (idle_client (mkScript [Some ok_context]
                                           [Some (integer_reply 3)] 0)))
         = (true, 3)).
Proof.
  split.
  - assert (A : answers
                  (connected_client (answering [Some (integer_reply (-2))]))
                  (Formatted "TTL %b" [ArgBytes "k"]) (integer_reply (-2)))
      by reflexivity.
    split; [exact A|].
    destruct (proj1 (@integer_handed_back_as_is script scripted_transport)
                "k" 0) as [Hlive Hback].
    destruct (Hlive (connected_client (answering [Some (integer_reply (-2))]))
                    _ _ (surjective_pairing _)) as [Hans _].
    destruct (Hback _ _ _ _ (surjective_pairing _) (Hans _ A))
      as [Hok Hval].
    apply injective_projections; [exact (proj2 Hok eq_refl)|exact (Hval eq_refl)].
  - assert (A : answers
                  (idle_client (mkScript [Some ok_context]
                                         [Some (integer_reply 3)] 0))
                  (Formatted "SCARD %b" [ArgBytes "s"]) (integer_reply 3))
      by (split; reflexivity).
    split; [exact A|].
    destruct (proj2 (@integer_handed_back_as_is script scripted_transport)
                "s" 0) as [Hlive Hback].
    destruct (Hlive (idle_client (mkScript [Some ok_context]
                                           [Some (integer_reply 3)] 0))
                    _ _ (surjective_pairing _)) as [Hans _].
    destruct (Hback _ _ _ _ (surjective_pairing _) (Hans _ A))
      as [Hok Hval].
    apply injective_projections; [exact (proj2 Hok eq_refl)|exact (Hval eq_refl)].
Defined.

Lemma count_written_through_pointer_witness :
  (answers (connected_client (answering [Some (integer_reply 2)]))
           (Argv ["SADD"; "s"; "x"; "y"]) (integer_reply 2)
   /\ fst (sadd "s" ["x"; "y"] None
                (connected_client (answering [Some (integer_reply 2)])))
      = (true, None))
  /\ (answers (connected_client (answering [Some (integer_reply 1)]))
              (Argv ["SDIFFSTORE"; "d"; "A"; "B"]) (integer_reply 1)
      /\ fst (sdiff_store "d" ["A"; "B"] (Some 0)
                          (connected_client
                             (answering [Some (integer_reply 1)])))
         = (true, Some 1))
  /\ (answers (idle_client (mkScript [Some ok_context]
                                     [Some (integer_reply 5)] 0))
              (Argv ["SINTERSTORE"; "d"; "A"; "B"]) (integer_reply 5)
      /\ fst (sinter_store "d" ["A"; "B"] (Some 0)
                           (idle_client (mkScript [Some ok_context]
                                                  [Some (integer_reply 5)] 0)))
         = (true, Some 5)).
Proof.
  split; [|split].
  - assert (A : answers
                  (connected_client (answering [Some (integer_reply 2)]))
                  (Argv ["SADD"; "s"; "x"; "y"]) (integer_reply 2))
      by reflexivity.
    split; [exact A|].
    destruct (proj1 (@count_written_through_pointer script scripted_transport)
                "s" ["x"; "y"] None) as [Hlive Hback].
    destruct (Hlive (connected_client (answering [Some (integer_reply 2)]))
                    _ _ (surjective_pairing _)) as [Hans _].
    destruct (Hback _ _ _ _ (surjective_pairing _) (Hans _ A))
      as [Hok Hval].
    apply injective_projections; [exact (proj2 Hok eq_refl)|exact (Hval eq_refl)].
  - assert (A : answers
                  (connected_client (answering [Some (integer_reply 1)]))
                  (Argv ["SDIFFSTORE"; "d"; "A"; "B"]) (integer_reply 1))
      by reflexivity.
    split; [exact A|].
    destruct (proj1 (proj2 (@count_written_through_pointer
                              script scripted_transport))
                "d" ["A"; "B"] (Some 0)) as [Hlive Hback].
    destruct (Hlive (connected_client (answering [Some (integer_reply 1)]))
                    _ _ (surjective_pairing _)) as [Hans _].
    destruct (Hback _ _ _ _ (surjective_pairing _) (Hans _ A))
      as [Hok Hval].
    apply injective_projections; [exact (proj2 Hok eq_refl)|exact (Hval eq_refl)].
  - assert (A : answers
                  (idle_client (mkScript [Some ok_context]
                                         [Some (integer_reply 5)] 0))
                  (Argv ["SINTERSTORE"; "d"; "A"; "B"]) (integer_reply 5))
      by (split; reflexivity).
    split; [exact A|].
    destruct (proj2 (proj2 (@count_written_through_pointer
                              script scripted_transport))
                "d" ["A"; "B"] (Some 0)) as [Hlive Hback].
    destruct (Hlive (idle_client (mkScript [Some ok_context]
                                           [Some (integer_reply 5)] 0))
                    _ _ (surjective_pairing _)) as [Hans _].
    destruct (Hback _ _ _ _ (surjective_pairing _) (Hans _ A))
      as [Hok Hval].
    apply injective_projections; [exact (proj2 Hok eq_refl)|exact (Hval eq_refl)].
Defined.

Lemma array_reply_becomes_vector_witness :
  (answers (connected_client
              (answering [Some (array_reply [string_reply binary_value;
                                             nil_reply])]))
           (Argv ["SDIFF"; "A"; "B"])
           (array_reply [string_reply binary_value; nil_reply])
   /\ fst (sdiff ["A"; "B"] ["stale"]
                 (connected_client
                    (answering [Some (array_reply [string_reply binary_value;
                                                   nil_reply])])))
      = (true, [binary_value; ""]))
  /\ (answers (connected_client
                 (answering [Some (array_reply [string_reply "y"])]))
              (Argv ["SINTER"; "A"; "B"])
              (array_reply [string_reply "y"])
      /\ fst (sinter ["A"; "B"] ["stale"; "more"]
                     (connected_client
                        (answering [Some (array_reply [string_reply "y"])])))
         = (true, ["y"])).
Proof.
  split.
  - assert (A : answers
                  (connected_client
                     (answering [Some (array_reply [string_reply binary_value;
                                                    nil_reply])]))
                  (Argv ["SDIFF"; "A"; "B"])
                  (array_reply [string_reply binary_value; nil_reply]))
      by reflexivity.
    split; [exact A|].
    destruct (proj1 (@array_reply_becomes_vector script scripted_transport)
                ["A"; "B"] ["stale"]) as [Hlive Hback].
    destruct (Hlive (connected_client
                       (answering [Some (array_reply
                                           [string_reply binary_value;
                                            nil_reply])]))
                    _ _ (surjective_pairing _)) as [Hans _].
    destruct (Hback _ _ _ _ (surjective_pairing _) (Hans _ A))
      as [Hok Hval].
    apply injective_projections; [exact (proj2 Hok eq_refl)|exact (Hval eq_refl)].
  - assert (A : answers
                  (connected_client
                     (answering [Some (array_reply [string_reply "y"])]))
                  (Argv ["SINTER"; "A"; "B"])
                  (array_reply [string_reply "y"]))
      by reflexivity.
    split; [exact A|].
    destruct (proj2 (@array_reply_becomes_vector script scripted_transport)
                ["A"; "B"] ["stale"; "more"]) as [Hlive Hback].
    destruct (Hlive (connected_client
                       (answering [Some (array_reply [string_reply "y"])]))
                    _ _ (surjective_pairing _)) as [Hans _].
    destruct (Hback _ _ _ _ (surjective_pairing _) (Hans _ A))
      as [Hok Hval].
    apply injective_projections; [exact (proj2 Hok eq_refl)|exact (Hval eq_refl)].
Defined.

Lemma status_means_done_witness :
  (answers (connected_client (answering [Some (status_reply "OK")]))
           (Formatted "SELECT %d" [ArgNum 3]) (status_reply "OK")
   /\ fst (select_db 3
                     (connected_client (answering [Some (status_reply "OK")])))
      = true)
  /\ (answers (connected_client (answering [Some (status_reply "OK")]))
              (Argv ["HMSET"; "h"; "a"; "1"; "b"; "2"]) (status_reply "OK")
      /\ fst (hset "h" [("a", "1"); ("b", "2")]
                   (connected_client (answering [Some (status_reply "OK")])))
         = true).
Proof.
  split.
  - assert (A : answers
                  (connected_client (answering [Some (status_reply "OK")]))
                  (Formatted "SELECT %d" [ArgNum 3]) (status_reply "OK"))
      by reflexivity.
    split; [exact A|].
    destruct (proj1 (@status_means_done script scripted_transport) 3)
      as [Hlive Hverdict].
    destruct (Hlive (connected_client (answering [Some (status_reply "OK")]))
                    _ _ (surjective_pairing _)) as [Hans _].
    destruct (Hverdict _ _ _ _ (surjective_pairing _) (Hans _ A))
      as [Hok _].
    exact (proj2 Hok eq_refl).
  - assert (A : answers
                  (connected_client (answering [Some (status_reply "OK")]))
                  (Argv ["HMSET"; "h"; "a"; "1"; "b"; "2"])
                  (status_reply "OK"))
      by reflexivity.
    split; [exact A|].
    destruct (proj2 (@status_means_done script scripted_transport)
                "h" [("a", "1"); ("b", "2")]) as [Hlive Hverdict].
    destruct (Hlive (connected_client (answering [Some (status_reply "OK")]))
                    _ _ (surjective_pairing _)) as [Hans _].
    destruct (Hverdict _ _ _ _ (surjective_pairing _) (Hans _ A))
      as [Hok _].
    exact (proj2 Hok eq_refl).
Defined.

Lemma expire_rejects_other_integers_witness :
  (answers (connected_client (answering [Some (integer_reply 2)]))
           (Formatted "EXPIRE %b %u" [ArgBytes "k"; ArgNum 10])
           (integer_reply 2)
   /\ fst (expire "k" 10
                  (connected_client (answering [Some (integer_reply 2)])))
      = false
   /\ m_errmsg (self (snd (expire "k" 10
                             (connected_client
                                (answering [Some (integer_reply 2)])))))
      = [EText "Key does not exist or the timeout could not be set. reply->integer is ";
         ENum 2])
  /\ (answers (connected_client (answering [Some (integer_reply (-1))]))
              (Formatted "EXPIREAT %b %lld" [ArgBytes "k"; ArgNum 1700000000])
              (integer_reply (-1))
      /\ fst (expire_at "k" 1700000000
                        (connected_client
                           (answering [Some (integer_reply (-1))])))
         = false
      /\ m_errmsg (self (snd (expire_at "k" 1700000000
                                (connected_client
                                   (answering [Some (integer_reply (-1))])))))
         = [EText "Key does not exist or the timeout could not be set. reply->integer is ";
            ENum (-1)]).
Proof.
  split.
  - assert (A : answers
                  (connected_client (answering [Some (integer_reply 2)]))
                  (Formatted "EXPIRE %b %u" [ArgBytes "k"; ArgNum 10])
                  (integer_reply 2)) by reflexivity.
    split; [exact A|].
    destruct (proj1 (@expire_rejects_other_integers script scripted_transport)
                "k" 10) as [Hlive Hother].
    destruct (Hlive (connected_client (answering [Some (integer_reply 2)]))
                    _ _ (surjective_pairing _)) as [Hans _].
    refine (Hother _ _ _ _ (surjective_pairing _) (Hans _ A) eq_refl _).
    discriminate.
  - assert (A : answers
                  (connected_client (answering [Some (integer_reply (-1))]))
                  (Formatted "EXPIREAT %b %lld"
                             [ArgBytes "k"; ArgNum 1700000000])
                  (integer_reply (-1))) by reflexivity.
    split; [exact A|].
    destruct (proj2 (@expire_rejects_other_integers script scripted_transport)
                "k" 1700000000) as [Hlive Hother].
    destruct (Hlive (connected_client (answering [Some (integer_reply (-1))]))
                    _ _ (surjective_pairing _)) as [Hans _].
    refine (Hother _ _ _ _ (surjective_pairing _) (Hans _ A) eq_refl _).
    discriminate.
Defined.
